(** * subset-cjk-fonts.py: character collection, statistics and font subsetting

    A shallow embedding of [apps/discord-worker/scripts/subset-cjk-fonts.py].

    - Python values read by [json.load] are the inductive type [json]; a
      [str] is the list of its characters, a character being its code point
      ([ord] is the identity on it); a [dict] is the list of its items in
      insertion order.
    - The set [codepoints] is a [gset Z].
    - The script runs in a [world]: the regular files of the file system
      (path to bytes), the lines printed so far, and what the network serves
      (URL to bytes). A path that exists is a regular file that can be
      read, and the directories of the paths written to exist. An action is
      a function from the world to a result ([Ok] or [Raise]) and the world
      it leaves; an exception keeps the writes made before it.
    - The libraries the script calls ([json], [fontTools]) are not part of
      the script: they are fields of the class [Environment], and every
      statement holds for all of their behaviours.
    - Paths are POSIX paths. *)

From Stdlib Require Import ZArith Lia Ascii.
From stdpp Require Import gmap strings list fin_maps sets pretty.

Open Scope Z_scope.

(* ====================================================================== *)
(** ** Python values *)

(** A character of a [str] is identified with its code point. *)
Definition pychar := Z.
Definition ord (ch : pychar) : Z := ch.
Definition pystr := list pychar.

(** What [json.load] returns. *)
#[warnings="-register-all"]
Inductive json :=
| JNull
| JBool (b : bool)
| JInt (n : Z)
| JFloat (mantissa exponent : Z)
| JStr (s : pystr)
| JList (items : list json)
| JDict (items : list (pystr * json)).

(** [obj.values()] *)
Definition values (d : list (pystr * json)) : list json := d.*2.

(** Induction over documents, with the hypothesis for every element of a
    list and every value of a dict. *)
Section json_induction.
Variable P : json → Prop.
Hypothesis Hnull : P JNull.
Hypothesis Hbool : ∀ b, P (JBool b).
Hypothesis Hint : ∀ n, P (JInt n).
Hypothesis Hfloat : ∀ m e, P (JFloat m e).
Hypothesis Hstr : ∀ s, P (JStr s).
Hypothesis Hlist : ∀ items, Forall P items → P (JList items).
Hypothesis Hdict : ∀ d, Forall P (values d) → P (JDict d).

Fixpoint json_nested_ind (obj : json) : P obj :=
  match obj with
  | JNull => Hnull
  | JBool b => Hbool b
  | JInt n => Hint n
  | JFloat m e => Hfloat m e
  | JStr s => Hstr s
  | JList items =>
      Hlist items
        ((fix go (l : list json) : Forall P l :=
            match l with
            | [] => Forall_nil_2 P
            | v :: l' => Forall_cons_2 P v l' (json_nested_ind v) (go l')
            end) items)
  | JDict d =>
      Hdict d
        ((fix go (l : list (pystr * json)) : Forall P (values l) :=
            match l with
            | [] => Forall_nil_2 P
            | kv :: l' =>
                Forall_cons_2 P kv.2 (values l') (json_nested_ind kv.2) (go l')
            end) d)
  end.
End json_induction.

(* ====================================================================== *)
(** ** Character collection: [add_strings] *)

(** [for ch in obj: codepoints.add(ord(ch))] *)
Definition add_chars (s : pystr) (codepoints : gset Z) : gset Z :=
  foldl (λ cps ch, cps ∪ {[ord ch]}) codepoints s.

(** The closure [add_strings] of [collect_all_characters]; the set it
    mutates is passed in and returned. The loop over [obj.values()] takes
    the second component of every item. *)
Fixpoint add_strings (obj : json) (codepoints : gset Z) : gset Z :=
  match obj with
  | JStr s => add_chars s codepoints
  | JDict d => foldl (λ cps kv, add_strings kv.2 cps) codepoints d
  | JList items => foldl (λ cps item, add_strings item cps) codepoints items
  | _ => codepoints
  end.

(** [s] is a string-valued leaf of the document, at any depth. *)
Inductive string_leaf : json → pystr → Prop :=
| leaf_str s : string_leaf (JStr s) s
| leaf_item items item s :
    item ∈ items → string_leaf item s → string_leaf (JList items) s
| leaf_value d v s :
    v ∈ values d → string_leaf v s → string_leaf (JDict d) s.

(** [c] is the code point of a character of a string-valued leaf. *)
Definition leaf_codepoint (obj : json) (c : Z) : Prop :=
  ∃ s ch, string_leaf obj s ∧ ch ∈ s ∧ ord ch = c.

(* ====================================================================== *)
(** ** The world the script runs in *)

Inductive exn :=
| SystemExit (code : Z)        (* raised by [sys.exit(code)] *)
| Exception (name : string).   (* any other exception, by its class *)

Inductive result (A : Type) :=
| Ok (a : A)
| Raise (e : exn).
Arguments Ok {A} a.
Arguments Raise {A} e.

Record world := World {
  fs : gmap string (list Byte.byte);     (* regular files: path to contents *)
  stdout : list string;             (* one entry per call of [print] *)
  net : gmap string (list Byte.byte);    (* what a URL serves *)
}.

Definition action (A : Type) : Type := world → result A * world.

Definition ret {A} (a : A) : action A := λ w, (Ok a, w).

Definition raise {A} (e : exn) : action A := λ w, (Raise e, w).

Definition bind {A B} (m : action A) (k : A → action B) : action B :=
  λ w, match m w with
       | (Ok a, w') => k a w'
       | (Raise e, w') => (Raise e, w')
       end.

Notation "'do' x <- m ; k" := (bind m (λ x, k))
  (at level 10, x name, m at level 100, k at level 200,
   format "'[v' 'do'  x  <-  m ; '/' k ']'").
Notation "'do' ' p <- m ; k" := (bind m (λ x, match x with p => k end))
  (at level 10, p pattern, m at level 100, k at level 200,
   format "'[v' 'do'  ' p  <-  m ; '/' k ']'").
Notation "m ;; k" := (bind m (λ _, k))
  (at level 100, k at level 200, right associativity).

(** What the process reports to its caller. *)
Definition exit_status {A} (r : result A) : Z :=
  match r with
  | Ok _ => 0
  | Raise (SystemExit code) => code
  | Raise (Exception _) => 1
  end.

(** The value an action returned, if it returned. *)
Definition returned {A} (o : result A * world) : option A :=
  match o.1 with Ok a => Some a | Raise _ => None end.

(** [print(line)] *)
Definition print (line : string) : action unit :=
  λ w, (Ok tt, World (fs w) (stdout w ++ [line]) (net w)).

(** [os.path.exists(path)] *)
Definition path_exists (path : string) : action bool :=
  λ w, (Ok (bool_decide (is_Some (fs w !! path))), w).

(** Reading the whole of a file that is opened for reading. *)
Definition read_file (path : string) : action (list Byte.byte) :=
  λ w, match fs w !! path with
       | Some data => (Ok data, w)
       | None => (Raise (Exception "FileNotFoundError"), w)
       end.

Definition write_file (path : string) (data : list Byte.byte) : action unit :=
  λ w, (Ok tt, World (<[path := data]> (fs w)) (stdout w) (net w)).

(** [os.path.getsize(path)] *)
Definition getsize (path : string) : action Z :=
  λ w, match fs w !! path with
       | Some data => (Ok (Z.of_nat (length data)), w)
       | None => (Raise (Exception "FileNotFoundError"), w)
       end.

(** [urllib.request.urlretrieve(url, path)] *)
Definition urlretrieve (url path : string) : action unit :=
  λ w, match net w !! url with
       | Some data => write_file path data w
       | None => (Raise (Exception "URLError"), w)
       end.

(** A library call that returns a value or raises [name]. *)
Definition call {A} (name : string) (o : option A) : action A :=
  match o with
  | Some a => ret a
  | None => raise (Exception name)
  end.

(** [for x in l: s = body(x, s)] *)
Fixpoint for_each {A S} (l : list A) (body : A → S → action S) (s : S)
  : action S :=
  match l with
  | [] => ret s
  | x :: l' => do s' <- body x s; for_each l' body s'
  end.

(* ====================================================================== *)
(** ** Paths ([posixpath]) *)

Definition is_sep (a : ascii) : bool := bool_decide (a = "/"%char).

Fixpoint drop_seps (l : list ascii) : list ascii :=
  match l with
  | a :: l' => if is_sep a then drop_seps l' else l
  | [] => []
  end.

Fixpoint drop_to_sep (l : list ascii) : list ascii :=
  match l with
  | a :: l' => if is_sep a then l else drop_to_sep l'
  | [] => []
  end.

(** [os.path.dirname(p)]: the part up to the last separator, its trailing
    separators stripped unless it consists of separators only. *)
Definition dirname (p : string) : string :=
  let head := reverse (drop_to_sep (reverse (String.list_ascii_of_string p))) in
  String.string_of_list_ascii
    (if forallb is_sep head then head
     else reverse (drop_seps (reverse head))).

(** [os.path.join(a, b)] *)
Definition path_join (a b : string) : string :=
  match String.list_ascii_of_string b, last (String.list_ascii_of_string a) with
  | c :: _, Some z =>
      if is_sep c then b
      else if is_sep z then a +:+ b
      else a +:+ "/" +:+ b
  | c :: _, None => b
  | [], Some z => if is_sep z then a else a +:+ "/"
  | [], None => ""
  end.

(** [os.path.join(a, *parts)] *)
Definition path_join_all (a : string) (parts : list string) : string :=
  foldl path_join a parts.

(* ====================================================================== *)
(** ** Fonts, as far as the script looks into them *)

(** An entry of [font['name'].names]. *)
Record NameRecord := {
  nameID : Z;
  platformID : Z;
  platEncID : Z;
  langID : Z;
  record_string : string;     (* the attribute [string] of the record *)
}.

Record TTFont := {
  name_table : option (list NameRecord);   (* [font['name'].names], if the font has the table *)
  best_cmap : option (gmap Z string);      (* [font.getBestCmap()]: code point to glyph name *)
  other_tables : list Byte.byte;           (* the rest of the font *)
}.

(** The attributes the script sets on [Options()]. *)
Record Options := {
  layout_features : list string;
  name_IDs : list string;
  notdef_outline : bool;
}.

(* ====================================================================== *)
(** ** The script *)

(** What the script takes from its environment: the libraries it calls and
    its own location. *)
Class Environment := {
  (** [json.load] of the text of a file opened with [encoding="utf-8"];
      [None] when it raises ([UnicodeDecodeError], [JSONDecodeError]). *)
  json_load : list Byte.byte → option json;
  (** [fontTools]: [TTFont(path)] on the contents of the file,
      [Subsetter(options).populate(unicodes=...); .subset(font)], and the
      bytes [font.save] writes; [None] when they raise. *)
  TTFont_open : list Byte.byte → option TTFont;
  Subsetter_subset : Options → gset Z → TTFont → option TTFont;
  TTFont_save : TTFont → option (list Byte.byte);
  (** [os.path.abspath(__file__)] *)
  script_file : string;
}.

Section Script.
Context {env : Environment}.

(** *** Configuration *)

Definition SCRIPT_DIR : string := dirname script_file.
Definition WORKER_ROOT : string := dirname SCRIPT_DIR.
Definition PROJECT_ROOT : string := dirname WORKER_ROOT.

Definition CORE_LOCALES_DIR : string :=
  path_join_all PROJECT_ROOT ["xivdyetools-core"; "src"; "data"; "locales"].
Definition BOT_LOCALES_DIR : string :=
  path_join_all WORKER_ROOT ["src"; "locales"].
Definition FONTS_DIR : string :=
  path_join_all WORKER_ROOT ["src"; "fonts"].

Definition SC_INPUT : string := path_join FONTS_DIR "NotoSansSC-Regular.ttf".
Definition SC_OUTPUT : string := path_join FONTS_DIR "NotoSansSC-Subset.ttf".
Definition KR_OUTPUT : string := path_join FONTS_DIR "NotoSansKR-Subset.ttf".

Definition NOTO_KR_URL : string :=
  "https://github.com/google/fonts/raw/main/ofl/notosanskr/NotoSansKR%5Bwght%5D.ttf".

Definition LOCALE_LANGUAGES : list string := ["ja"; "ko"; "zh"; "de"; "fr"].

(** *** Character collection *)

(** [set(range(0x20, 0x7F))] *)
Definition basic_ascii : gset Z := list_to_set (seqZ 0x20 (0x7F - 0x20)).

(** [os.path.join(dir, f"{lang}.json")] *)
Definition locale_path (dir lang : string) : string :=
  path_join dir (lang +:+ ".json").

(** The body of either loop over [LOCALE_LANGUAGES]; [label] is ["Core"]
    or ["Bot "]. *)
Definition load_locale (label dir lang : string) (codepoints : gset Z)
  : action (gset Z) :=
  let path := locale_path dir lang in
  do found <- path_exists path;
  if found : bool then
    do data <- read_file path;
    do obj <- call "ValueError" (json_load data);
    let codepoints := add_strings obj codepoints in
    print ("  " +:+ label +:+ " " +:+ lang +:+ ".json: loaded");;
    ret codepoints
  else
    print ("  " +:+ label +:+ " " +:+ lang +:+ ".json: not found (skipped)");;
    ret codepoints.

Definition collect_all_characters : action (gset Z) :=
  let codepoints := basic_ascii in
  do codepoints <-
    for_each LOCALE_LANGUAGES (load_locale "Core" CORE_LOCALES_DIR) codepoints;
  do codepoints <-
    for_each LOCALE_LANGUAGES (load_locale "Bot " BOT_LOCALES_DIR) codepoints;
  ret codepoints.

(** *** Statistics *)

(** [sum(1 for c in codepoints if lo <= c <= hi)] *)
Definition count_in (lo hi : Z) (codepoints : gset Z) : Z :=
  Z.of_nat (length (filter (λ c, lo ≤ c ≤ hi) (elements codepoints))).

(** [len(codepoints)] *)
Definition len (codepoints : gset Z) : Z := Z.of_nat (size codepoints).

Definition hangul (codepoints : gset Z) : Z := count_in 0xAC00 0xD7AF codepoints.
Definition katakana (codepoints : gset Z) : Z := count_in 0x30A0 0x30FF codepoints.
Definition hiragana (codepoints : gset Z) : Z := count_in 0x3040 0x309F codepoints.
Definition cjk (codepoints : gset Z) : Z := count_in 0x4E00 0x9FFF codepoints.
Definition ascii_count (codepoints : gset Z) : Z := count_in 0x20 0x7E codepoints.

(** The value printed after ["  Other: "]. *)
Definition other (codepoints : gset Z) : Z :=
  len codepoints - ascii_count codepoints - cjk codepoints
  - hangul codepoints - katakana codepoints - hiragana codepoints.

(** The text of ["\n"]. *)
Definition nl : string := String "010" "".

Definition print_stats (codepoints : gset Z) : action unit :=
  print (nl +:+ "Total codepoints: " +:+ pretty (len codepoints));;
  print ("  ASCII: " +:+ pretty (ascii_count codepoints));;
  print ("  CJK Unified: " +:+ pretty (cjk codepoints));;
  print ("  Hangul: " +:+ pretty (hangul codepoints));;
  print ("  Katakana: " +:+ pretty (katakana codepoints));;
  print ("  Hiragana: " +:+ pretty (hiragana codepoints));;
  print ("  Other: " +:+ pretty (other codepoints)).

(** *** Font subsetting *)

(** [record.string = fix_names[record.nameID]] when
    [record.nameID in fix_names]. *)
Definition fix_record (fix_names : gmap Z string) (record : NameRecord)
  : NameRecord :=
  match fix_names !! nameID record with
  | Some s =>
      {| nameID := nameID record; platformID := platformID record;
         platEncID := platEncID record; langID := langID record;
         record_string := s |}
  | None => record
  end.

(** The block under [if fix_names:]: [None] and the empty dict are false;
    [font['name']] raises [KeyError] in a font without the table, which
    is the result [None] here. *)
Definition fix_name_records (fix_names : option (gmap Z string))
    (font : TTFont) : option TTFont :=
  match fix_names with
  | Some names =>
      if bool_decide (names = ∅) then Some font
      else
        match name_table font with
        | Some records =>
            Some {| name_table := Some (fix_record names <$> records);
                    best_cmap := best_cmap font;
                    other_tables := other_tables font |}
        | None => None
        end
  | None => Some font
  end.

Definition subset_options : Options :=
  {| layout_features := ["*"]; name_IDs := ["*"]; notdef_outline := true |}.

Definition subset_font (input_path output_path : string)
    (codepoints : gset Z) (fix_names : option (gmap Z string))
  : action (Z * Z) :=
  do data <- read_file input_path;
  do font <- call "TTLibError" (TTFont_open data);
  let options := subset_options in
  do font <- call "SubsettingError" (Subsetter_subset options codepoints font);
  do font <- call "KeyError" (fix_name_records fix_names font);
  do saved <- call "TTLibError" (TTFont_save font);
  write_file output_path saved;;
  do cmap <- call "TypeError" (best_cmap font);
  let glyph_count := Z.of_nat (size cmap) in
  do size <- getsize output_path;
  ret (size, glyph_count).

(** *** Main *)

(** The text of [f"{n / 1024:.1f}"] for a size [0 <= n < 2^53]: the
    quotient is then exact, and the format rounds it to one decimal, a
    tie to the even digit. *)
Definition fmt_kib (n : Z) : string :=
  let q := (10 * n) `div` 1024 in
  let r := (10 * n) `mod` 1024 in
  let tenths :=
    if bool_decide (512 < r ∨ (r = 512 ∧ Z.odd q = true)) then q + 1 else q in
  pretty (tenths `div` 10) +:+ "." +:+ pretty (tenths `mod` 10).

Definition kr_candidates : list string :=
  [ path_join FONTS_DIR "NotoSansKR-Variable.ttf";
    path_join FONTS_DIR "NotoSansKR[wght].ttf";
    path_join FONTS_DIR "NotoSansKR-Regular.ttf" ].

(** [next((p for p in paths if os.path.exists(p)), None)] *)
Fixpoint first_existing (paths : list string) : action (option string) :=
  match paths with
  | [] => ret None
  | p :: rest =>
      do found <- path_exists p;
      if found : bool then ret (Some p) else first_existing rest
  end.

(** [not kr_input] *)
Definition is_falsy (kr_input : option string) : bool :=
  match kr_input with
  | None => true
  | Some p => bool_decide (p = "")
  end.

Definition kr_fix_names : gmap Z string :=
  <[1 := "Noto Sans KR"]> (<[2 := "Regular"]> (<[4 := "Noto Sans KR Regular"]>
    (<[6 := "NotoSansKR-Regular"]> ∅))).

(** Lines 155 to 168: collection, statistics and the Simplified-Chinese
    font. Returns [codepoints] and [sc_size]. *)
Definition main_sc : action (gset Z * Z) :=
  print "Collecting characters from all locale files...";;
  do codepoints <- collect_all_characters;
  print_stats codepoints;;
  do found <- path_exists SC_INPUT;
  (if negb found then
     print (nl +:+ "Error: " +:+ SC_INPUT +:+ " not found.");;
     print "Download Noto Sans SC Regular from: https://fonts.google.com/noto/specimen/Noto+Sans+SC";;
     raise (SystemExit 1)
   else ret tt);;
  print (nl +:+ "--- Noto Sans SC ---");;
  do input_size <- getsize SC_INPUT;
  print ("Input: " +:+ fmt_kib input_size +:+ " KiB");;
  do ' (sc_size, sc_glyphs) <- subset_font SC_INPUT SC_OUTPUT codepoints None;
  print ("Output: " +:+ fmt_kib sc_size +:+ " KiB (" +:+ pretty sc_glyphs +:+ " glyphs)");;
  ret (codepoints, sc_size).

(** Lines 172 to 184: the Korean source font, looked up and if need be
    downloaded. Returns [kr_input]. *)
Definition find_kr_input : action string :=
  do kr_input <- first_existing kr_candidates;
  if is_falsy kr_input then
    print (nl +:+ "Noto Sans KR source not found. Downloading...");;
    let kr_input := path_join FONTS_DIR "NotoSansKR-Variable.ttf" in
    urlretrieve NOTO_KR_URL kr_input;;
    do size <- getsize kr_input;
    print ("Downloaded: " +:+ fmt_kib size +:+ " KiB");;
    ret kr_input
  else ret (default "" kr_input).

(** Lines 186 to 197: the Korean font and the summary. *)
Definition main_kr (codepoints : gset Z) (sc_size : Z) (kr_input : string)
  : action unit :=
  print (nl +:+ "--- Noto Sans KR ---");;
  do input_size <- getsize kr_input;
  print ("Input: " +:+ fmt_kib input_size +:+ " KiB");;
  do ' (kr_size, kr_glyphs) <-
    subset_font kr_input KR_OUTPUT codepoints (Some kr_fix_names);
  print ("Output: " +:+ fmt_kib kr_size +:+ " KiB (" +:+ pretty kr_glyphs +:+ " glyphs)");;
  print (nl +:+ "Total CJK font overhead: " +:+ fmt_kib (sc_size + kr_size) +:+ " KiB");;
  print "Done! Commit the updated subset files to the repository.".

Definition main : action unit :=
  do ' (codepoints, sc_size) <- main_sc;
  do kr_input <- find_kr_input;
  main_kr codepoints sc_size kr_input.

End Script.

(* ====================================================================== *)
(** ** Vocabulary for the statements *)

Section Locale_files.
Context {env : Environment}.

(** The world after printing [lines]. *)
Definition say (w : world) (lines : list string) : world :=
  World (fs w) (stdout w ++ lines) (net w).

(** The files the two loops visit, in the order they visit them, each
    with the label it is reported under. *)
Definition locale_files : list (string * string * string) :=
  ((λ lang, ("Core", CORE_LOCALES_DIR, lang)) <$> LOCALE_LANGUAGES)
  ++ ((λ lang, ("Bot ", BOT_LOCALES_DIR, lang)) <$> LOCALE_LANGUAGES).

(** One loop over a list of such files, from the ASCII seed. *)
Definition collect_over (files : list (string * string * string))
  : action (gset Z) :=
  for_each files (λ '(label, dir, lang), load_locale label dir lang)
    basic_ascii.

(** The document in [<dir>/<lang>.json], when the file exists and
    [json.load] accepts it. *)
Definition locale_doc (w : world) (dir lang : string) : option json :=
  fs w !! locale_path dir lang ≫= json_load.

(** The file is absent, or [json.load] accepts it. *)
Definition locale_file_decodes (w : world) (dir lang : string) : bool :=
  match fs w !! locale_path dir lang with
  | Some data => bool_decide (is_Some (json_load data))
  | None => true
  end.

Definition all_decode (w : world) (files : list (string * string * string))
  : bool :=
  forallb (λ '(_, dir, lang), locale_file_decodes w dir lang) files.

(** The line printed for a file. *)
Definition locale_notice (w : world) (file : string * string * string)
  : string :=
  let '(label, dir, lang) := file in
  match fs w !! locale_path dir lang with
  | Some _ => "  " +:+ label +:+ " " +:+ lang +:+ ".json: loaded"
  | None => "  " +:+ label +:+ " " +:+ lang +:+ ".json: not found (skipped)"
  end.

(** [c] is a code point of a string-valued leaf of a document loaded
    from one of [files]. *)
Definition loaded_codepoint (w : world)
    (files : list (string * string * string)) (c : Z) : Prop :=
  ∃ label dir lang obj,
    (label, dir, lang) ∈ files ∧ locale_doc w dir lang = Some obj
    ∧ leaf_codepoint obj c.
End Locale_files.

(** The name records after the fix: the same records in the same order,
    each with its string overridden if its ID is in the mapping and
    untouched if not. *)
Definition names_fixed (names : gmap Z string)
    (before after : option (list NameRecord)) : Prop :=
  option_Forall2
    (Forall2 (λ r r',
       nameID r' = nameID r ∧ platformID r' = platformID r
       ∧ platEncID r' = platEncID r ∧ langID r' = langID r
       ∧ match names !! nameID r with
         | Some s => record_string r' = s
         | None => r' = r
         end))
    before after.

(* ====================================================================== *)
(** ** A small environment to run the script in *)

Definition code_of (b : Byte.byte) : Z := Z.of_N (Byte.to_N b).

(** Stands for [json.load]: the bytes of a file are the characters of the
    one string of a document [{"text": ..., "n": 1}]; an empty file is
    refused. *)
Definition demo_json_load (data : list Byte.byte) : option json :=
  match data with
  | [] => None
  | _ => Some (JDict [([116; 101; 120; 116], JStr (code_of <$> data));
                      ([110], JInt 1)])
  end.

Definition demo_record (id : Z) (s : string) : NameRecord :=
  {| nameID := id; platformID := 3; platEncID := 1; langID := 0x409;
     record_string := s |}.

(** Stands for [TTFont(path)]: a font with a glyph for every byte of the
    file, and three name records. *)
Definition demo_TTFont_open (data : list Byte.byte) : option TTFont :=
  match data with
  | [] => None
  | _ =>
      Some {| name_table :=
                Some [demo_record 1 "Noto Sans KR Thin"; demo_record 2 "Thin";
                      demo_record 5 "Version 2.004"];
              best_cmap :=
                Some (list_to_map ((λ b, (code_of b, "glyph")) <$> data));
              other_tables := data |}
  end.

(** Stands for the subsetter: keeps the code points asked for. *)
Definition demo_subset (options : Options) (unicodes : gset Z) (font : TTFont)
  : option TTFont :=
  Some {| name_table := name_table font;
          best_cmap := filter (λ kv, kv.1 ∈ unicodes) <$> best_cmap font;
          other_tables := other_tables font |}.

(** Stands for [font.save]: one byte per name record, then the rest. *)
Definition demo_save (font : TTFont) : option (list Byte.byte) :=
  Some (((λ _, Byte.x00) <$> default [] (name_table font)) ++ other_tables font).

Definition demo_env : Environment :=
  {| json_load := demo_json_load;
     TTFont_open := demo_TTFont_open;
     Subsetter_subset := demo_subset;
     TTFont_save := demo_save;
     script_file := "/repo/apps/discord-worker/scripts/subset-cjk-fonts.py" |}.

(** A world with one locale file of each directory and the Korean font. *)
Definition demo_world : world :=
  {| fs :=
       <["/repo/apps/xivdyetools-core/src/data/locales/ja.json" := [Byte.x41; Byte.xe9]]>
       (<["/repo/apps/discord-worker/src/locales/ko.json" := [Byte.xe9; Byte.xff]]>
       (<["/repo/apps/discord-worker/src/fonts/NotoSansKR[wght].ttf" := [Byte.x41; Byte.x42; Byte.xa0]]> ∅));
     stdout := [];
     net := ∅ |}.

(** The same with the Simplified-Chinese font, and without the Korean one,
    which the network serves. *)
Definition demo_world_sc : world :=
  {| fs :=
       <["/repo/apps/xivdyetools-core/src/data/locales/ja.json" := [Byte.x41; Byte.xe9]]>
       (<["/repo/apps/discord-worker/src/fonts/NotoSansSC-Regular.ttf" := [Byte.x41; Byte.xe9; Byte.xa0]]> ∅);
     stdout := [];
     net :=
       {[ "https://github.com/google/fonts/raw/main/ofl/notosanskr/NotoSansKR%5Bwght%5D.ttf"
          := [Byte.x41; Byte.x42; Byte.xe9; Byte.xa0] ]} |}.

(** The document [demo_json_load] reads from the bytes [0x41 0xE9], and the
    set the collector returns in [demo_world]. *)
Definition demo_doc : json :=
  JDict [([116; 101; 120; 116], JStr [0x41; 0xE9]); ([110], JInt 1)].

Definition demo_codepoints : gset Z :=
  list_to_set (seqZ 0x20 (0x7F - 0x20)) ∪ {[ 0xE9; 0xFF ]}.
(* ====================================================================== *)
(** ** Vocabulary for the statements about effects *)

(** [w'] is [w] after some printing and some writing, to [paths] only:
    the network is the same, the output has grown, every other path holds
    what it held, and no file has gone. *)
Definition extends (paths : list string) (w w' : world) : Prop :=
  net w' = net w
  ∧ (∃ lines, stdout w' = stdout w ++ lines)
  ∧ (∀ p, p ∉ paths → fs w' !! p = fs w !! p)
  ∧ (∀ p, is_Some (fs w !! p) → is_Some (fs w' !! p)).

(** The action writes to [paths] only, whether it returns or raises. *)
Definition keeps {A} (paths : list string) (m : action A) : Prop :=
  ∀ w, extends paths w (m w).2.

(** The lines [print_stats] prints. *)
Definition stats_lines (codepoints : gset Z) : list string :=
  [nl +:+ "Total codepoints: " +:+ pretty (len codepoints);
   "  ASCII: " +:+ pretty (ascii_count codepoints);
   "  CJK Unified: " +:+ pretty (cjk codepoints);
   "  Hangul: " +:+ pretty (hangul codepoints);
   "  Katakana: " +:+ pretty (katakana codepoints);
   "  Hiragana: " +:+ pretty (hiragana codepoints);
   "  Other: " +:+ pretty (other codepoints)].

(** The path the Korean font is downloaded to. *)
Definition kr_download_path {env : Environment} : string :=
  path_join FONTS_DIR "NotoSansKR-Variable.ttf".


(** An environment whose fonts have neither a name table nor a character
    map. *)
Definition bare_TTFont_open (data : list Byte.byte) : option TTFont :=
  Some {| name_table := None; best_cmap := None; other_tables := data |}.

Definition bare_env : Environment :=
  {| json_load := demo_json_load;
     TTFont_open := bare_TTFont_open;
     Subsetter_subset := demo_subset;
     TTFont_save := demo_save;
     script_file := "/repo/apps/discord-worker/scripts/subset-cjk-fonts.py" |}.

(** [demo_world] with an empty file for Core ko.json, which
    [demo_json_load] refuses. *)
Definition demo_world_broken : world :=
  {| fs := <["/repo/apps/xivdyetools-core/src/data/locales/ko.json" := []]>
             (fs demo_world);
     stdout := [];
     net := ∅ |}.

(** [demo_world_sc] without the network. *)
Definition demo_world_offline : world :=
  {| fs := fs demo_world_sc; stdout := []; net := ∅ |}.

(** The set the collector returns in [demo_world_sc]. *)
Definition demo_codepoints_sc : gset Z :=
  list_to_set (seqZ 0x20 (0x7F - 0x20)) ∪ {[ 0xE9 ]}.

(* ====================================================================== *)
(** ** What [add_strings] adds *)

Lemma elem_of_add_chars (c : Z) (s : pystr) (S : gset Z) :
  c ∈ add_chars s S ↔ c ∈ S ∨ ∃ ch, ch ∈ s ∧ ord ch = c.
Proof.
  unfold add_chars. revert S.
  induction s as [|ch s IH]; intros S; simpl.
  - split; [auto|]. intros [H|(ch & H & _)]; [done|]. by apply elem_of_nil in H.
  - rewrite IH, elem_of_union, elem_of_singleton. split.
    + intros [[H|H]|(ch' & H & E)]; [by left| |].
      * right. exists ch. split; [left|done].
      * right. exists ch'. split; [by right|done].
    + intros [H|(ch' & H & E)]; [by left; left|].
      apply elem_of_cons in H as [->|H]; [by left; right|].
      right. by exists ch'.
Qed.

(** A loop that feeds every element of a list to a function which only
    adds to the set. *)
Lemma elem_of_foldl_adds {A} (f : A → gset Z → gset Z) (Q : A → Prop)
    (c : Z) (l : list A) :
  Forall (λ x, ∀ S, c ∈ f x S ↔ c ∈ S ∨ Q x) l →
  ∀ S, c ∈ foldl (λ cps x, f x cps) S l ↔ c ∈ S ∨ ∃ x, x ∈ l ∧ Q x.
Proof.
  induction 1 as [|x l Hx _ IH]; intros S; simpl.
  - split; [auto|]. intros [H|(x & H & _)]; [done|]. by apply elem_of_nil in H.
  - rewrite IH, Hx. split.
    + intros [[H|H]|(y & H & Hy)]; [by left| |].
      * right. exists x. split; [left|done].
      * right. exists y. split; [by right|done].
    + intros [H|(y & H & Hy)]; [by left; left|].
      apply elem_of_cons in H as [->|H]; [by left; right|].
      right. by exists y.
Qed.

Lemma foldl_values {B} (f : json → B → B) (d : list (pystr * json)) (b : B) :
  foldl (λ acc kv, f kv.2 acc) b d = foldl (λ acc v, f v acc) b (values d).
Proof. revert b. induction d as [|kv d IH]; intros b; simpl; [done|apply IH]. Qed.

Lemma leaf_codepoint_list (items : list json) (c : Z) :
  leaf_codepoint (JList items) c ↔ ∃ item, item ∈ items ∧ leaf_codepoint item c.
Proof.
  split.
  - intros (s & ch & Hl & Hch & E). inversion Hl; subst.
    eexists; split; [eassumption|]. by exists s, ch.
  - intros (item & Hin & s & ch & Hl & Hch & E).
    exists s, ch. split; [by eapply leaf_item|done].
Qed.

Lemma leaf_codepoint_dict (d : list (pystr * json)) (c : Z) :
  leaf_codepoint (JDict d) c ↔ ∃ v, v ∈ values d ∧ leaf_codepoint v c.
Proof.
  split.
  - intros (s & ch & Hl & Hch & E). inversion Hl; subst.
    eexists; split; [eassumption|]. by exists s, ch.
  - intros (v & Hin & s & ch & Hl & Hch & E).
    exists s, ch. split; [by eapply leaf_value|done].
Qed.

Lemma leaf_codepoint_str (s : pystr) (c : Z) :
  leaf_codepoint (JStr s) c ↔ ∃ ch, ch ∈ s ∧ ord ch = c.
Proof.
  split.
  - intros (s' & ch & Hl & Hch & E). inversion Hl; subst. by exists ch.
  - intros (ch & Hch & E). exists s, ch. split; [constructor|done].
Qed.

Lemma leaf_codepoint_scalar (obj : json) (c : Z) :
  (∀ s, obj ≠ JStr s) → (∀ l, obj ≠ JList l) → (∀ d, obj ≠ JDict d) →
  ¬ leaf_codepoint obj c.
Proof.
  intros Hs Hl Hd (s & ch & H & _). inversion H; subst;
    [by eapply Hs|by eapply Hl|by eapply Hd].
Qed.

Lemma elem_of_add_strings (obj : json) :
  ∀ (S : gset Z) (c : Z), c ∈ add_strings obj S ↔ c ∈ S ∨ leaf_codepoint obj c.
Proof.
  induction obj as [|b|n|m e|s|items IH|d IH] using json_nested_ind;
    intros S c; simpl.
  1-4: split; [auto|intros [H|H]; [done|]];
       exfalso; revert H; by apply leaf_codepoint_scalar.
  - by rewrite elem_of_add_chars, leaf_codepoint_str.
  - rewrite leaf_codepoint_list.
    apply (elem_of_foldl_adds add_strings (λ item, leaf_codepoint item c)).
    eapply Forall_impl; [exact IH|]. intros item H S'. apply H.
  - rewrite leaf_codepoint_dict, (foldl_values add_strings).
    apply (elem_of_foldl_adds add_strings (λ v, leaf_codepoint v c)).
    eapply Forall_impl; [exact IH|]. intros v H S'. apply H.
Qed.

Section Collector.
Context {env : Environment}.

Lemma bind_inv {A B} (m : action A) (k : A → action B) w b w2 :
  bind m k w = (Ok b, w2) → ∃ a w1, m w = (Ok a, w1) ∧ k a w1 = (Ok b, w2).
Proof.
  unfold bind. destruct (m w) as [[a|e] w1]; [|done]. intros H. by exists a, w1.
Qed.

Lemma for_each_app {A S} (l1 l2 : list A) (body : A → S → action S) s w :
  for_each (l1 ++ l2) body s w
  = bind (for_each l1 body s) (for_each l2 body) w.
Proof.
  revert s w. induction l1 as [|x l1 IH]; intros s w; simpl; [done|].
  unfold bind. destruct (body x s w) as [[s'|e] w']; [|done].
  rewrite IH. reflexivity.
Qed.

Lemma for_each_fmap {A B S} (f : A → B) (l : list A)
    (body : B → S → action S) s w :
  for_each (f <$> l) body s w = for_each l (λ x, body (f x)) s w.
Proof.
  revert s w. induction l as [|x l IH]; intros s w; simpl; [done|].
  unfold bind. destruct (body (f x) s w) as [[s'|e] w']; [|done]. apply IH.
Qed.

Lemma collect_all_characters_over w :
  collect_all_characters w = collect_over locale_files w.
Proof.
  unfold collect_all_characters, collect_over, locale_files.
  rewrite for_each_app. unfold bind. rewrite for_each_fmap.
  destruct (for_each LOCALE_LANGUAGES _ basic_ascii w) as [[s|e] w1]; [|done].
  rewrite for_each_fmap.
  by destruct (for_each LOCALE_LANGUAGES _ s w1) as [[s'|e] w2].
Qed.

(** One iteration, by cases on the file. *)
Lemma load_locale_eq label dir lang S w :
  load_locale label dir lang S w =
    match fs w !! locale_path dir lang with
    | None => (Ok S, say w [locale_notice w (label, dir, lang)])
    | Some data =>
        match json_load data with
        | Some obj =>
            (Ok (add_strings obj S), say w [locale_notice w (label, dir, lang)])
        | None => (Raise (Exception "ValueError"), w)
        end
    end.
Proof.
  unfold load_locale, bind, path_exists, read_file, locale_notice; simpl.
  destruct (fs w !! locale_path dir lang) as [data|] eqn:E; simpl.
  - rewrite E. by destruct (json_load data).
  - done.
Qed.

(** What a loop over [files] leaves in the set. *)
Lemma for_each_load_ok files : ∀ S w S' w',
  for_each files (λ '(label, dir, lang), load_locale label dir lang) S w
    = (Ok S', w') →
  all_decode w files = true
  ∧ w' = say w (locale_notice w <$> files)
  ∧ ∀ c, c ∈ S' ↔ c ∈ S ∨ loaded_codepoint w files c.
Proof.
  induction files as [|[[label dir] lang] files IH]; intros S w S' w'; simpl.
  - intros [= <- <-]. split; [done|]. split.
    + destruct w; unfold say; simpl. by rewrite app_nil_r.
    + intros c. split; [auto|]. intros [H|(?&?&?&?&H&_)]; [done|].
      by apply elem_of_nil in H.
  - intros H. apply bind_inv in H as (S1 & w1 & H1 & H2).
    rewrite load_locale_eq in H1. unfold locale_file_decodes.
    assert (Hfs : fs w1 = fs w ∧ w1 = say w [locale_notice w (label, dir, lang)]
                  ∧ locale_file_decodes w dir lang = true
                  ∧ ∀ c, c ∈ S1 ↔ c ∈ S ∨
                      ∃ obj, locale_doc w dir lang = Some obj ∧ leaf_codepoint obj c).
    { unfold locale_file_decodes, locale_doc.
      destruct (fs w !! locale_path dir lang) as [data|] eqn:E; simpl.
      - destruct (json_load data) as [obj|] eqn:Ej; [|done].
        injection H1 as <- <-.
        split; [done|]. split; [done|]. split; [by apply bool_decide_eq_true_2|].
        intros c. rewrite elem_of_add_strings. split.
        + intros [?|?]; [by left|right; by exists obj].
        + intros [?|(obj' & [= <-] & ?)]; auto.
      - injection H1 as <- <-.
        split; [done|]. split; [done|]. split; [done|].
        intros c. split; [auto|]. intros [?|(? & ? & _)]; done. }
    destruct Hfs as (Hfs & -> & Hdec & HS1).
    apply IH in H2 as (Hall & -> & HS').
    assert (Hsame : ∀ files', all_decode (say w [locale_notice w (label, dir, lang)]) files'
                              = all_decode w files') by done.
    split; [|split].
    + fold (locale_file_decodes w dir lang). rewrite Hdec. simpl.
      by rewrite <- Hsame.
    + unfold say; simpl. f_equal. by rewrite <- app_assoc.
    + intros c. rewrite HS', HS1. unfold loaded_codepoint. split.
      * intros [[?|(obj & ? & ?)]|(l & d & g & obj & Hin & ? & ?)]; [by left| |].
        -- right. exists label, dir, lang, obj. split; [left|done].
        -- right. exists l, d, g, obj. split; [by right|done].
      * intros [?|(l & d & g & obj & Hin & ? & ?)]; [by left; left|].
        apply elem_of_cons in Hin as [[= -> -> ->]|Hin].
        -- left; right. by exists obj.
        -- right. by exists l, d, g, obj.
Qed.

(** A loop over files that all decode returns. *)
Lemma for_each_load_total files : ∀ S w,
  all_decode w files = true →
  ∃ S', for_each files (λ '(label, dir, lang), load_locale label dir lang) S w
        = (Ok S', say w (locale_notice w <$> files)).
Proof.
  induction files as [|[[label dir] lang] files IH]; intros S w; simpl.
  - intros _. exists S. unfold ret, say. destruct w; simpl. by rewrite app_nil_r.
  - intros [Hd Hall]%andb_true_iff.
    unfold bind. rewrite load_locale_eq.
    unfold locale_file_decodes in Hd.
    set (w1 := say w [locale_notice w (label, dir, lang)]).
    assert (∃ S1, match fs w !! locale_path dir lang with
              | None => (Ok S, w1)
              | Some data =>
                  match json_load data with
                  | Some obj => (Ok (add_strings obj S), w1)
                  | None => (Raise (Exception "ValueError"), w)
                  end
              end = (Ok S1, w1)) as [S1 ->].
    { destruct (fs w !! locale_path dir lang) as [data|]; [|by eexists].
      apply bool_decide_eq_true_1 in Hd as [obj ->]. by eexists. }
    destruct (IH S1 w1 Hall) as [S' ->]. exists S'. f_equal.
    unfold say, w1; simpl. f_equal. by rewrite <- app_assoc.
Qed.
End Collector.

Section Collector_claims.
Context {env : Environment}.

Lemma elem_of_basic_ascii (c : Z) : c ∈ basic_ascii ↔ 0x20 ≤ c ≤ 0x7E.
Proof.
  unfold basic_ascii. rewrite elem_of_list_to_set, elem_of_seqZ. lia.
Qed.

(** The collector returns exactly when every locale file that exists
    decodes, and then says what it did with each file. *)
Lemma collect_all_characters_returns (w : world) :
  all_decode w locale_files = true →
  ∃ cps, collect_all_characters w
         = (Ok cps, say w (locale_notice w <$> locale_files)).
Proof.
  intros H. rewrite collect_all_characters_over.
  by apply for_each_load_total.
Qed.

Lemma collect_all_characters_inv (w : world) cps w' :
  collect_all_characters w = (Ok cps, w') →
  all_decode w locale_files = true
  ∧ w' = say w (locale_notice w <$> locale_files)
  ∧ ∀ c, c ∈ cps ↔ c ∈ basic_ascii ∨ loaded_codepoint w locale_files c.
Proof.
  rewrite collect_all_characters_over. apply for_each_load_ok.
Qed.

(** C1. Every character of every string-valued leaf of a document the
    collector loads, at any depth, has its code point in the returned
    set; and a document adds to a set the code points of the characters
    of its string-valued leaves and nothing else, so that a number, a
    boolean or null adds nothing. *)
Theorem collect_has_string_leaves (w w' : world) (cps : gset Z)
    (label dir lang : string) (obj : json) :
  collect_all_characters w = (Ok cps, w') →
  (label, dir, lang) ∈ locale_files →
  locale_doc w dir lang = Some obj →
  (∀ s ch, string_leaf obj s → ch ∈ s → ord ch ∈ cps)
  ∧ (∀ doc S c, c ∈ add_strings doc S ↔ c ∈ S ∨ leaf_codepoint doc c)
  ∧ (∀ S, add_strings JNull S = S
          ∧ (∀ b, add_strings (JBool b) S = S)
          ∧ (∀ n, add_strings (JInt n) S = S)
          ∧ (∀ m e, add_strings (JFloat m e) S = S)).
Proof.
  intros Hrun Hfile Hdoc. apply collect_all_characters_inv in Hrun as (_ & _ & Hcps).
  split; [|split].
  - intros s ch Hleaf Hch. apply Hcps. right.
    exists label, dir, lang, obj. split; [done|]. split; [done|].
    by exists s, ch.
  - intros doc. apply elem_of_add_strings.
  - done.
Qed.

(** C2. The collector returns exactly when every locale file that
    exists decodes, and the set it returns contains every code point
    from 0x20 to 0x7E, whatever the files hold. *)
Theorem collect_contains_ascii (w : world) :
  (all_decode w locale_files = true
   ↔ ∃ cps w', collect_all_characters w = (Ok cps, w'))
  ∧ (∀ cps w', collect_all_characters w = (Ok cps, w') →
     ∀ c, 0x20 ≤ c ≤ 0x7E → c ∈ cps).
Proof.
  split; [split|].
  - intros H. destruct (collect_all_characters_returns w H) as [cps Hc]. eauto.
  - intros (cps & w' & H). by apply collect_all_characters_inv in H as (? & _).
  - intros cps w' H c Hc. apply collect_all_characters_inv in H as (_ & _ & Hcps).
    apply Hcps. left. by apply elem_of_basic_ascii.
Qed.

(** C8. When every locale file that exists decodes, the collector
    returns, whichever of the ten files are absent: it changes no file,
    prints one line per file in the order of the loops, the notice
    "not found (skipped)" for an absent one, and the set is the ASCII
    seed with the code points of the documents of the files that
    exist. *)
Theorem collect_skips_missing_files (w : world) :
  all_decode w locale_files = true →
  ∃ cps,
    collect_all_characters w
      = (Ok cps, say w (locale_notice w <$> locale_files))
    ∧ (∀ c, c ∈ cps ↔ c ∈ basic_ascii ∨ loaded_codepoint w locale_files c)
    ∧ (∀ label dir lang,
         fs w !! locale_path dir lang = None →
         locale_doc w dir lang = None
         ∧ locale_notice w (label, dir, lang)
           = "  " +:+ label +:+ " " +:+ lang +:+ ".json: not found (skipped)")
    ∧ ((∀ label dir lang, (label, dir, lang) ∈ locale_files →
          fs w !! locale_path dir lang = None) →
       cps = basic_ascii).
Proof.
  intros H. destruct (collect_all_characters_returns w H) as [cps Hc].
  exists cps. split; [done|].
  apply collect_all_characters_inv in Hc as (_ & _ & Hcps).
  split; [done|]. split.
  - intros label dir lang Hnone. unfold locale_doc, locale_notice.
    by rewrite Hnone.
  - intros Hnone. apply set_eq. intros c. rewrite Hcps. split; [|auto].
    intros [?|(label & dir & lang & obj & Hin & Hdoc & _)]; [done|].
    unfold locale_doc in Hdoc. by rewrite (Hnone _ _ _ Hin) in Hdoc.
Qed.

Lemma loaded_codepoint_perm (w : world) files files' c :
  files ≡ₚ files' → loaded_codepoint w files c → loaded_codepoint w files' c.
Proof.
  intros Hp (label & dir & lang & obj & Hin & H). exists label, dir, lang, obj.
  split; [|done]. by rewrite <- Hp.
Qed.

Lemma all_decode_perm (w : world) files files' :
  files ≡ₚ files' → all_decode w files = true → all_decode w files' = true.
Proof.
  unfold all_decode. intros Hp. rewrite !forallb_forall.
  intros H x Hx. apply H. apply list_elem_of_In. rewrite Hp.
  by apply list_elem_of_In.
Qed.

(** C10. The set the collector returns is the ASCII seed with the code
    points of the string-valued leaves of the documents of the locale
    files that exist. It is the set of one loop over the ten files, and
    of a loop over them in any other order; and two worlds whose
    documents have the same code points give the same set, however often
    or wherever a character occurs. *)
Theorem collect_is_union (w w' : world) (cps : gset Z) :
  collect_all_characters w = (Ok cps, w') →
  (∀ c, c ∈ cps ↔ 0x20 ≤ c ≤ 0x7E ∨ loaded_codepoint w locale_files c)
  ∧ (∀ files, files ≡ₚ locale_files →
       ∃ w'', collect_over files w = (Ok cps, w''))
  ∧ (∀ v v' cps',
       collect_all_characters v = (Ok cps', v') →
       (∀ c, loaded_codepoint w locale_files c
             ↔ loaded_codepoint v locale_files c) →
       cps' = cps).
Proof.
  intros H. apply collect_all_characters_inv in H as (Hdec & _ & Hcps).
  split; [|split].
  - intros c. by rewrite Hcps, elem_of_basic_ascii.
  - intros files Hp.
    destruct (for_each_load_total files basic_ascii w) as [S' HS'].
    { by apply (all_decode_perm w locale_files). }
    fold (collect_over files) in HS'. eexists. rewrite HS'. f_equal. f_equal.
    apply for_each_load_ok in HS' as (_ & _ & HS').
    apply set_eq. intros c. rewrite HS', Hcps.
    split; (intros [?|?]; [by left|right]).
    + by apply (loaded_codepoint_perm w files).
    + by apply (loaded_codepoint_perm w locale_files).
  - intros v v' cps' Hv Hsame.
    apply collect_all_characters_inv in Hv as (_ & _ & Hcps').
    apply set_eq. intros c. by rewrite Hcps', Hcps, Hsame.
Qed.
End Collector_claims.

Section Statistics_claims.

(** Counting the elements of a list in five ranges that do not overlap,
    and those in none of them. *)
Lemma elements_filter_length (P : Z → Prop) `{!∀ c, Decision (P c)}
    (X : gset Z) :
  size (filter P X) = length (filter P (elements X)).
Proof.
  unfold size, set_size; simpl. apply Permutation_length.
  apply NoDup_Permutation.
  - apply NoDup_elements.
  - apply NoDup_filter, NoDup_elements.
  - intros c. rewrite elem_of_elements, elem_of_filter, list_elem_of_filter.
    by rewrite elem_of_elements.
Qed.

Lemma count_partition (l : list Z) :
  (length (filter (λ c, 0x20 ≤ c ≤ 0x7E)%Z l)
   + length (filter (λ c, 0x4E00 ≤ c ≤ 0x9FFF)%Z l)
   + length (filter (λ c, 0xAC00 ≤ c ≤ 0xD7AF)%Z l)
   + length (filter (λ c, 0x30A0 ≤ c ≤ 0x30FF)%Z l)
   + length (filter (λ c, 0x3040 ≤ c ≤ 0x309F)%Z l)
   + length (filter (λ c, ¬ (0x20 ≤ c ≤ 0x7E) ∧ ¬ (0x4E00 ≤ c ≤ 0x9FFF)
                          ∧ ¬ (0xAC00 ≤ c ≤ 0xD7AF) ∧ ¬ (0x30A0 ≤ c ≤ 0x30FF)
                          ∧ ¬ (0x3040 ≤ c ≤ 0x309F))%Z l)
   = length l)%nat.
Proof.
  induction l as [|c l IH]; [done|].
  rewrite !filter_cons.
  repeat case_decide; simpl; lia.
Qed.

(** C3. The five ranges the report counts are pairwise disjoint; the
    five counts and the value printed as "Other" add up to the size of
    the set; that value is the number of code points in none of the
    ranges, and is not negative; and these are the numbers printed. *)
Theorem print_stats_counts (codepoints : gset Z) :
  (∀ c,
     (0x20 ≤ c ≤ 0x7E →
        ¬ 0x4E00 ≤ c ≤ 0x9FFF ∧ ¬ 0xAC00 ≤ c ≤ 0xD7AF
        ∧ ¬ 0x30A0 ≤ c ≤ 0x30FF ∧ ¬ 0x3040 ≤ c ≤ 0x309F)
     ∧ (0x4E00 ≤ c ≤ 0x9FFF →
        ¬ 0xAC00 ≤ c ≤ 0xD7AF ∧ ¬ 0x30A0 ≤ c ≤ 0x30FF ∧ ¬ 0x3040 ≤ c ≤ 0x309F)
     ∧ (0xAC00 ≤ c ≤ 0xD7AF → ¬ 0x30A0 ≤ c ≤ 0x30FF ∧ ¬ 0x3040 ≤ c ≤ 0x309F)
     ∧ (0x30A0 ≤ c ≤ 0x30FF → ¬ 0x3040 ≤ c ≤ 0x309F))
  ∧ ascii_count codepoints + cjk codepoints + hangul codepoints
    + katakana codepoints + hiragana codepoints + other codepoints
    = len codepoints
  ∧ other codepoints
    = Z.of_nat (size (filter
        (λ c, ¬ (0x20 ≤ c ≤ 0x7E) ∧ ¬ (0x4E00 ≤ c ≤ 0x9FFF)
              ∧ ¬ (0xAC00 ≤ c ≤ 0xD7AF) ∧ ¬ (0x30A0 ≤ c ≤ 0x30FF)
              ∧ ¬ (0x3040 ≤ c ≤ 0x309F)) codepoints))
  ∧ 0 ≤ other codepoints
  ∧ ∀ w, print_stats codepoints w
         = (Ok tt,
            say w [nl +:+ "Total codepoints: " +:+ pretty (len codepoints);
                   "  ASCII: " +:+ pretty (ascii_count codepoints);
                   "  CJK Unified: " +:+ pretty (cjk codepoints);
                   "  Hangul: " +:+ pretty (hangul codepoints);
                   "  Katakana: " +:+ pretty (katakana codepoints);
                   "  Hiragana: " +:+ pretty (hiragana codepoints);
                   "  Other: " +:+ pretty (other codepoints)]).
Proof.
  pose proof (count_partition (elements codepoints)) as Hsum.
  assert (Hother : other codepoints
    = Z.of_nat (length (filter
        (λ c, ¬ (0x20 ≤ c ≤ 0x7E) ∧ ¬ (0x4E00 ≤ c ≤ 0x9FFF)
              ∧ ¬ (0xAC00 ≤ c ≤ 0xD7AF) ∧ ¬ (0x30A0 ≤ c ≤ 0x30FF)
              ∧ ¬ (0x3040 ≤ c ≤ 0x309F)) (elements codepoints)))).
  { unfold other, len, ascii_count, cjk, hangul, katakana, hiragana, count_in.
    unfold size, set_size; simpl. lia. }
  split; [intros c; lia|]. split; [|split; [|split]].
  - rewrite Hother.
    unfold len, ascii_count, cjk, hangul, katakana, hiragana, count_in.
    unfold size, set_size; simpl. lia.
  - rewrite Hother. f_equal. symmetry. apply elements_filter_length.
  - rewrite Hother. lia.
  - intros w. unfold print_stats, bind, print, say; simpl.
    by rewrite <- !app_assoc.
Qed.
End Statistics_claims.

Section Subsetter_claims.
Context {env : Environment}.

(** A successful call of [subset_font], step by step. *)
Lemma subset_font_ok input_path output_path codepoints fix_names w size n w' :
  subset_font input_path output_path codepoints fix_names w
    = (Ok (size, n), w') ↔
  ∃ data font subsetted fixed saved cmap,
    fs w !! input_path = Some data
    ∧ TTFont_open data = Some font
    ∧ Subsetter_subset subset_options codepoints font = Some subsetted
    ∧ fix_name_records fix_names subsetted = Some fixed
    ∧ TTFont_save fixed = Some saved
    ∧ best_cmap fixed = Some cmap
    ∧ size = Z.of_nat (length saved)
    ∧ n = Z.of_nat (stdpp.base.size cmap)
    ∧ w' = World (<[output_path := saved]> (fs w)) (stdout w) (net w).
Proof.
  unfold subset_font, bind, read_file, call, getsize, write_file, ret, raise.
  split.
  - destruct (fs w !! input_path) as [data|] eqn:E1; [|done].
    destruct (TTFont_open data) as [font|] eqn:E2; [|done].
    destruct (Subsetter_subset subset_options codepoints font)
      as [subsetted|] eqn:E3; [|done].
    destruct (fix_name_records fix_names subsetted) as [fixed|] eqn:E4; [|done].
    destruct (TTFont_save fixed) as [saved|] eqn:E5; [|done].
    destruct (best_cmap fixed) as [cmap|] eqn:E6; [|done].
    simpl. rewrite lookup_insert_eq. intros [= <- <- <-].
    by exists data, font, subsetted, fixed, saved, cmap.
  - intros (data & font & subsetted & fixed & saved & cmap
            & -> & -> & -> & -> & -> & -> & -> & -> & ->).
    simpl. by rewrite lookup_insert_eq.
Qed.

Lemma fix_record_spec (names : gmap Z string) (r : NameRecord) :
  nameID (fix_record names r) = nameID r
  ∧ platformID (fix_record names r) = platformID r
  ∧ platEncID (fix_record names r) = platEncID r
  ∧ langID (fix_record names r) = langID r
  ∧ match names !! nameID r with
    | Some s => record_string (fix_record names r) = s
    | None => fix_record names r = r
    end.
Proof. unfold fix_record. by destruct (names !! nameID r). Qed.

Lemma fix_name_records_spec names font fixed :
  fix_name_records (Some names) font = Some fixed →
  names_fixed names (name_table font) (name_table fixed)
  ∧ best_cmap fixed = best_cmap font
  ∧ other_tables fixed = other_tables font.
Proof.
  unfold fix_name_records, names_fixed. case_bool_decide as Hempty.
  - intros [= <-]. split; [|done]. subst names.
    destruct (name_table font) as [records|]; constructor.
    apply Forall_Forall2_diag, Forall_forall. intros r _.
    by rewrite lookup_empty.
  - destruct (name_table font) as [records|]; [|done]. intros [= <-]; simpl.
    split; [|done]. constructor. apply Forall2_fmap_r, Forall_Forall2_diag.
    apply Forall_forall. intros r _. apply fix_record_spec.
Qed.

Lemma fix_name_records_cmap fix_names font fixed :
  fix_name_records fix_names font = Some fixed →
  best_cmap fixed = best_cmap font.
Proof.
  destruct fix_names as [names|]; [|by intros [= <-]].
  intros H. by apply fix_name_records_spec in H as (_ & ? & _).
Qed.

(** C5. After a successful call with a mapping of overrides, the font
    written to the output path is the font the subsetter produced with
    its name records fixed: the same records in the same order, the
    string of a record whose ID is in the mapping equal to the override,
    a record whose ID is not in it unchanged, and the rest of the font
    untouched. With the mapping of [main], a record of ID 1, 2, 4 or 6
    carries the string given for it. *)
Theorem subset_font_fix_names (input_path output_path : string)
    (codepoints : gset Z) (names : gmap Z string) (w w' : world)
    (size n : Z) :
  subset_font input_path output_path codepoints (Some names) w
    = (Ok (size, n), w') →
  ∃ data font subsetted fixed saved,
    fs w !! input_path = Some data
    ∧ TTFont_open data = Some font
    ∧ Subsetter_subset subset_options codepoints font = Some subsetted
    ∧ TTFont_save fixed = Some saved
    ∧ fs w' !! output_path = Some saved
    ∧ names_fixed names (name_table subsetted) (name_table fixed)
    ∧ best_cmap fixed = best_cmap subsetted
    ∧ other_tables fixed = other_tables subsetted
    ∧ (names = kr_fix_names →
       ∀ records r, name_table fixed = Some records → r ∈ records →
         (nameID r = 1 → record_string r = "Noto Sans KR")
         ∧ (nameID r = 2 → record_string r = "Regular")
         ∧ (nameID r = 4 → record_string r = "Noto Sans KR Regular")
         ∧ (nameID r = 6 → record_string r = "NotoSansKR-Regular")).
Proof.
  intros H. apply subset_font_ok in H
    as (data & font & subsetted & fixed & saved & cmap
        & H1 & H2 & H3 & H4 & H5 & H6 & -> & -> & ->).
  exists data, font, subsetted, fixed, saved.
  apply fix_name_records_spec in H4 as (Hnames & Hcmap & Hrest).
  split_and!; try done; [by simpl; rewrite lookup_insert_eq|].
  intros -> records r Hrecords Hr. unfold names_fixed in Hnames.
  rewrite Hrecords in Hnames. inversion Hnames as [before ? Hall|]; subst.
  apply list_elem_of_lookup in Hr as [i Hi].
  destruct (Forall2_lookup_r _ _ _ _ _ Hall Hi) as (r0 & _ & Hid & _ & _ & _ & Hstr).
  rewrite <- Hid in Hstr.
  repeat split; intros E; rewrite E in Hstr; exact Hstr.
Qed.

(** C9. A call of [subset_font] is successful exactly when the input
    file exists and the library calls succeed; it then returns the
    number of bytes of the file it has written at the output path, and
    the number of entries of the best character map of the font it has
    saved there, which is that of the subsetted font. *)
Theorem subset_font_returns_size_and_glyphs (input_path output_path : string)
    (codepoints : gset Z) (fix_names : option (gmap Z string))
    (w w' : world) (size n : Z) :
  subset_font input_path output_path codepoints fix_names w
    = (Ok (size, n), w') ↔
  ∃ data font subsetted fixed saved cmap,
    fs w !! input_path = Some data
    ∧ TTFont_open data = Some font
    ∧ Subsetter_subset subset_options codepoints font = Some subsetted
    ∧ fix_name_records fix_names subsetted = Some fixed
    ∧ TTFont_save fixed = Some saved
    ∧ w' = World (<[output_path := saved]> (fs w)) (stdout w) (net w)
    ∧ fs w' !! output_path = Some saved
    ∧ size = Z.of_nat (length saved)
    ∧ best_cmap fixed = Some cmap
    ∧ best_cmap subsetted = Some cmap
    ∧ n = Z.of_nat (stdpp.base.size cmap).
Proof.
  rewrite subset_font_ok. split.
  - intros (data & font & subsetted & fixed & saved & cmap
            & H1 & H2 & H3 & H4 & H5 & H6 & -> & -> & ->).
    exists data, font, subsetted, fixed, saved, cmap.
    split_and!; try done; [by simpl; rewrite lookup_insert_eq|].
    by rewrite <- (fix_name_records_cmap _ _ _ H4).
  - intros (data & font & subsetted & fixed & saved & cmap
            & H1 & H2 & H3 & H4 & H5 & -> & _ & -> & H6 & _ & ->).
    by exists data, font, subsetted, fixed, saved, cmap.
Qed.
End Subsetter_claims.

Section Main_claims.
Context {env : Environment}.

(** The loops of the collector write no file, whether they return or
    raise. *)
Lemma for_each_load_fs files : ∀ S w,
  fs (for_each files (λ '(label, dir, lang), load_locale label dir lang) S w).2
  = fs w.
Proof.
  induction files as [|[[label dir] lang] files IH]; intros S w; simpl; [done|].
  unfold bind. rewrite load_locale_eq.
  destruct (fs w !! locale_path dir lang) as [data|].
  - destruct (json_load data) as [obj|]; [|done]. by rewrite IH.
  - by rewrite IH.
Qed.

Lemma collect_all_characters_fs w :
  fs (collect_all_characters w).2 = fs w.
Proof. rewrite collect_all_characters_over. apply for_each_load_fs. Qed.

Lemma collect_all_characters_raises w e w' :
  collect_all_characters w = (Raise e, w') → e = Exception "ValueError".
Proof.
  rewrite collect_all_characters_over. unfold collect_over.
  generalize basic_ascii. revert w.
  induction locale_files as [|[[label dir] lang] files IH]; intros w S; simpl; [done|].
  unfold bind. rewrite load_locale_eq.
  destruct (fs w !! locale_path dir lang) as [data|].
  - destruct (json_load data) as [obj|]; [apply IH|]. by intros [= <- _].
  - apply IH.
Qed.

Lemma print_stats_eq codepoints w :
  ∃ lines, print_stats codepoints w = (Ok tt, say w lines).
Proof.
  eexists. unfold print_stats, bind, print, say; simpl.
  by rewrite <- !app_assoc.
Qed.

(** C4. Without the Simplified-Chinese input font the program ends
    with a status that is not zero and has written no file: the file
    system is the one it started in, so neither subset exists unless it
    did before. The status is that of [sys.exit(1)], or of the exception
    of a locale file that does not decode. *)
Theorem main_without_sc_input (w w' : world) (r : result unit) :
  fs w !! SC_INPUT = None →
  main w = (r, w') →
  exit_status r ≠ 0
  ∧ fs w' = fs w
  ∧ fs w' !! SC_OUTPUT = fs w !! SC_OUTPUT
  ∧ fs w' !! KR_OUTPUT = fs w !! KR_OUTPUT
  ∧ (r = Raise (SystemExit 1) ∨ r = Raise (Exception "ValueError"))
  ∧ (all_decode w locale_files = true → r = Raise (SystemExit 1)).
Proof.
  intros Hsc Hmain.
  assert (exit_status r ≠ 0 ∧ fs w' = fs w
          ∧ (r = Raise (SystemExit 1) ∨ r = Raise (Exception "ValueError"))
          ∧ (all_decode w locale_files = true → r = Raise (SystemExit 1)))
    as (H1 & H2 & H3 & H4).
  2: { split_and!; try done; by rewrite H2. }
  revert Hmain. unfold main, main_sc. unfold bind at 1 2 3.
  unfold print at 1. set (w0 := World _ _ _).
  pose proof (collect_all_characters_fs w0) as Hfs.
  destruct (collect_all_characters w0) as [[cps|e] w1] eqn:Hc.
  - unfold bind at 1. destruct (print_stats_eq cps w1) as [lines ->].
    unfold bind at 1. unfold path_exists. simpl in Hfs. simpl.
    rewrite Hfs. subst w0. simpl. rewrite Hsc.
    rewrite bool_decide_eq_false_2 by (by intros [? ?]). simpl.
    unfold bind, print, raise; simpl. intros [= <- <-]. simpl.
    split_and!; try done. by left.
  - simpl in Hfs. intros [= <- <-].
    pose proof (collect_all_characters_raises _ _ _ Hc) as ->. simpl.
    split_and!; try done; [by right|].
    intros Hdec. destruct (collect_all_characters_returns w0) as [cps Hcps];
      [done|]. congruence.
Qed.
End Main_claims.

Section Korean_font_claims.
Context {env : Environment}.

Lemma first_existing_eq paths w :
  first_existing paths w
  = (Ok (head (filter (λ p, is_Some (fs w !! p)) paths)), w).
Proof.
  induction paths as [|p paths IH]; simpl; [done|].
  unfold bind, path_exists. rewrite filter_cons.
  case_bool_decide; case_decide; try done.
Qed.

(** The first element of a list with a property. *)
Lemma head_filter_first {A} (P : A → Prop) `{!∀ x, Decision (P x)}
    (l : list A) (i : nat) (x : A) :
  l !! i = Some x → P x →
  (∀ j y, (j < i)%nat → l !! j = Some y → ¬ P y) →
  head (filter P l) = Some x.
Proof.
  revert i. induction l as [|a l IH]; intros i Hi Hx Hbefore; [done|].
  rewrite filter_cons. destruct i as [|i]; simpl in Hi.
  - injection Hi as ->. by rewrite decide_True.
  - rewrite decide_False by (apply (Hbefore 0%nat); [lia|done]).
    apply (IH i); [done..|]. intros j y Hj Hy.
    apply (Hbefore (S j)); [lia|done].
Qed.

Lemma head_filter_none {A} (P : A → Prop) `{!∀ x, Decision (P x)}
    (l : list A) :
  (∀ x, x ∈ l → ¬ P x) → head (filter P l) = None.
Proof.
  induction l as [|a l IH]; intros Hl; [done|].
  rewrite filter_cons, decide_False by (apply Hl; left).
  apply IH. intros x Hx. apply Hl. by right.
Qed.

Lemma path_join_nonempty (a : string) (c : Ascii.ascii) (b : string) :
  path_join a (String c b) ≠ "".
Proof.
  unfold path_join; simpl.
  destruct (last (String.list_ascii_of_string a)) as [z|]; [|done].
  destruct (is_sep c); [done|].
  destruct (is_sep z); by destruct a.
Qed.

(** C7. The candidates for the Korean input are the three files
    NotoSansKR-Variable.ttf, NotoSansKR[wght].ttf and
    NotoSansKR-Regular.ttf of the fonts directory, in this order. The
    first of them that exists is the input, and nothing is printed or
    downloaded. If none exists, the font is downloaded from the fixed URL
    to NotoSansKR-Variable.ttf, which is then the input: when the URL is
    served this is no error. The Korean stage of [main] runs on the input
    found. *)
Theorem find_kr_input_spec (w : world) :
  kr_candidates
    = [path_join FONTS_DIR "NotoSansKR-Variable.ttf";
       path_join FONTS_DIR "NotoSansKR[wght].ttf";
       path_join FONTS_DIR "NotoSansKR-Regular.ttf"]
  ∧ (∀ i p,
       kr_candidates !! i = Some p →
       is_Some (fs w !! p) →
       (∀ j q, (j < i)%nat → kr_candidates !! j = Some q → fs w !! q = None) →
       find_kr_input w = (Ok p, w))
  ∧ (∀ data,
       (∀ p, p ∈ kr_candidates → fs w !! p = None) →
       net w !! NOTO_KR_URL = Some data →
       find_kr_input w
       = (Ok (path_join FONTS_DIR "NotoSansKR-Variable.ttf"),
          World (<[path_join FONTS_DIR "NotoSansKR-Variable.ttf" := data]> (fs w))
                (stdout w
                 ++ [nl +:+ "Noto Sans KR source not found. Downloading...";
                     "Downloaded: " +:+ fmt_kib (Z.of_nat (length data))
                     +:+ " KiB"])
                (net w)))
  ∧ (∀ v codepoints sc_size kr_input w',
       main_sc v = (Ok (codepoints, sc_size), w) →
       find_kr_input w = (Ok kr_input, w') →
       main v = main_kr codepoints sc_size kr_input w').
Proof.
  split; [done|]. split; [|split].
  - intros i p Hi Hp Hbefore. unfold find_kr_input, bind.
    rewrite first_existing_eq.
    rewrite (head_filter_first _ _ i p Hi Hp).
    + simpl. rewrite bool_decide_eq_false_2; [done|].
      intros ->. revert Hi. clear. destruct i as [|[|[|i]]]; simpl; intros [= H];
        revert H; apply path_join_nonempty.
    + intros j q Hj Hq [x Hx]. by rewrite (Hbefore j q Hj Hq) in Hx.
  - intros data Hnone Hnet. unfold find_kr_input, bind.
    rewrite first_existing_eq, head_filter_none.
    + simpl. unfold urlretrieve, getsize; simpl. rewrite Hnet. simpl.
      rewrite lookup_insert_eq. simpl. by rewrite <- app_assoc.
    + intros p Hp [x Hx]. by rewrite (Hnone p Hp) in Hx.
  - intros v codepoints sc_size kr_input w' Hsc Hfind.
    unfold main, bind. by rewrite Hsc, Hfind.
Qed.
End Korean_font_claims.

(* ====================================================================== *)
(** ** The statements at work in the small environment *)

Section Demo.
Local Existing Instance demo_env.

(** The scenario of two locale files [{"greeting": "您好"}] and
    [{"greeting": "안녕"}]: two ideographs, two Hangul syllables, nothing
    else besides the ASCII seed. *)
Example greeting_scenario :
  let greeting := [103; 114; 101; 101; 116; 105; 110; 103] in
  let cps :=
    add_strings (JDict [(greeting, JStr [0xC548; 0xB155])])
      (add_strings (JDict [(greeting, JStr [0x60A8; 0x597D])]) basic_ascii) in
  len cps = 99 ∧ ascii_count cps = 95 ∧ cjk cps = 2 ∧ hangul cps = 2
  ∧ katakana cps = 0 ∧ hiragana cps = 0 ∧ other cps = 0.
Proof. vm_compute. done. Qed.

Lemma demo_collect :
  collect_all_characters demo_world
  = (Ok demo_codepoints,
     say demo_world (locale_notice demo_world <$> locale_files)).
Proof. vm_compute. reflexivity. Qed.

(** The code point 0xE9 of the string in Core ja.json is collected. *)
Lemma collect_has_string_leaves_witness :
  ord 0xE9 ∈ demo_codepoints
  ∧ add_strings (JInt 1) demo_codepoints = demo_codepoints.
Proof.
  destruct (collect_has_string_leaves demo_world
              (say demo_world (locale_notice demo_world <$> locale_files))
              demo_codepoints "Core" CORE_LOCALES_DIR "ja" demo_doc)
    as (Hleaves & _ & Hscalar).
  - vm_compute. reflexivity.
  - vm_compute. left.
  - vm_compute. reflexivity.
  - split.
    + apply (Hleaves [0x41; 0xE9] 0xE9).
      * apply (leaf_value _ (JStr [0x41; 0xE9])); [left|constructor].
      * right. left.
    + apply (Hscalar demo_codepoints).
Defined.

Lemma collect_contains_ascii_witness :
  ∃ cps w', collect_all_characters demo_world = (Ok cps, w') ∧ 0x41 ∈ cps.
Proof.
  destruct (collect_contains_ascii demo_world) as [[Hreturns _] Hascii].
  destruct Hreturns as (cps & w' & Hrun); [vm_compute; reflexivity|].
  exists cps, w'. split; [exact Hrun|].
  apply (Hascii cps w' Hrun 0x41). lia.
Defined.

(** [demo_world] has no Simplified-Chinese font. *)
Lemma main_without_sc_input_witness :
  exit_status (main demo_world).1 ≠ 0
  ∧ fs (main demo_world).2 = fs demo_world.
Proof.
  destruct (main_without_sc_input demo_world (main demo_world).2
              (main demo_world).1) as (Hstatus & Hfs & _).
  - vm_compute. reflexivity.
  - vm_compute. reflexivity.
  - split; [exact Hstatus|exact Hfs].
Defined.

Lemma collect_skips_missing_files_witness :
  ∃ cps, collect_all_characters demo_world
         = (Ok cps, say demo_world (locale_notice demo_world <$> locale_files)).
Proof.
  destruct (collect_skips_missing_files demo_world) as (cps & Hrun & _).
  - vm_compute. reflexivity.
  - exists cps. exact Hrun.
Defined.

Lemma collect_is_union_witness :
  0xE9 ∈ demo_codepoints
  ↔ 0x20 ≤ 0xE9 ≤ 0x7E ∨ loaded_codepoint demo_world locale_files 0xE9.
Proof.
  destruct (collect_is_union demo_world
              (say demo_world (locale_notice demo_world <$> locale_files))
              demo_codepoints) as (Hset & _).
  - vm_compute. reflexivity.
  - apply (Hset 0xE9).
Defined.

(** The Korean font of [demo_world], subsetted with the overrides of
    [main]: the records of ID 1 and 2 carry the overrides, the record of
    ID 5 is as it was. *)
Lemma subset_font_fix_names_witness :
  ∃ fixed saved,
    TTFont_save fixed = Some saved
    ∧ fs (subset_font "/repo/apps/discord-worker/src/fonts/NotoSansKR[wght].ttf"
            KR_OUTPUT demo_codepoints (Some kr_fix_names) demo_world).2
        !! KR_OUTPUT = Some saved
    ∧ names_fixed kr_fix_names
        (Some [demo_record 1 "Noto Sans KR Thin"; demo_record 2 "Thin";
               demo_record 5 "Version 2.004"])
        (name_table fixed).
Proof.
  destruct (subset_font_fix_names
              "/repo/apps/discord-worker/src/fonts/NotoSansKR[wght].ttf"
              KR_OUTPUT demo_codepoints kr_fix_names demo_world
              (subset_font "/repo/apps/discord-worker/src/fonts/NotoSansKR[wght].ttf"
                 KR_OUTPUT demo_codepoints (Some kr_fix_names) demo_world).2
              6 2)
    as (data & font & subsetted & fixed & saved
        & Hdata & Hfont & Hsub & Hsave & Hout & Hnames & _).
  - vm_compute. reflexivity.
  - exists fixed, saved. split; [exact Hsave|]. split; [exact Hout|].
    vm_compute in Hdata. injection Hdata as <-.
    injection Hfont as <-. injection Hsub as <-. exact Hnames.
Defined.

(** In [demo_world] the second candidate is the first that exists; in
    [demo_world_sc] none exists and the font is downloaded. *)
Lemma find_kr_input_spec_witness :
  find_kr_input demo_world
  = (Ok "/repo/apps/discord-worker/src/fonts/NotoSansKR[wght].ttf", demo_world)
  ∧ returned (find_kr_input demo_world_sc)
    = Some "/repo/apps/discord-worker/src/fonts/NotoSansKR-Variable.ttf".
Proof.
  split.
  - destruct (find_kr_input_spec demo_world) as (_ & Hfirst & _).
    apply (Hfirst 1%nat).
    + reflexivity.
    + vm_compute. eexists. reflexivity.
    + intros [|j] q Hj; [|lia]. intros [= <-]. vm_compute. reflexivity.
  - destruct (find_kr_input_spec demo_world_sc) as (_ & _ & Hnone & _).
    rewrite (Hnone [Byte.x41; Byte.x42; Byte.xe9; Byte.xa0]).
    + reflexivity.
    + intros p Hp. vm_compute in Hp.
      repeat (apply elem_of_cons in Hp as [->|Hp]; [vm_compute; reflexivity|]).
      by apply elem_of_nil in Hp.
    + vm_compute. reflexivity.
Defined.

Lemma subset_font_returns_size_and_glyphs_witness :
  ∃ saved cmap,
    fs (subset_font "/repo/apps/discord-worker/src/fonts/NotoSansKR[wght].ttf"
          KR_OUTPUT demo_codepoints None demo_world).2 !! KR_OUTPUT = Some saved
    ∧ 6 = Z.of_nat (length saved)
    ∧ 2 = Z.of_nat (size (cmap : gmap Z string)).
Proof.
  destruct (proj1 (subset_font_returns_size_and_glyphs
              "/repo/apps/discord-worker/src/fonts/NotoSansKR[wght].ttf"
              KR_OUTPUT demo_codepoints None demo_world
              (subset_font "/repo/apps/discord-worker/src/fonts/NotoSansKR[wght].ttf"
                 KR_OUTPUT demo_codepoints None demo_world).2
              6 2))
    as (data & font & subsetted & fixed & saved & cmap
        & _ & _ & _ & _ & _ & _ & Hout & Hsize & _ & _ & Hn).
  - vm_compute. reflexivity.
  - exists saved, cmap. split; [exact Hout|]. split; [exact Hsize|exact Hn].
Defined.
End Demo.

(* ====================================================================== *)
(** ** Further properties of the collector *)

Section Collector_properties.
Context {env : Environment}.

(** X1. A mapping is collected as the sequence of its values: its keys
    add nothing. *)
Theorem add_strings_ignores_keys (d : list (pystr * json)) (S : gset Z) :
  add_strings (JDict d) S = add_strings (JList (values d)) S
  ∧ ∀ k v, add_strings (JDict [(k, v)]) S = add_strings v S.
Proof. split; [apply (foldl_values add_strings)|done]. Qed.

(** X2. What a document adds does not depend on the set it is added to:
    the result is the union of the set and of what the document adds to
    the empty set. Hence adding a document twice is adding it once, and
    two documents can be added in either order. *)
Theorem add_strings_union (obj obj' : json) (S : gset Z) :
  add_strings obj S = S ∪ add_strings obj ∅
  ∧ add_strings obj (add_strings obj S) = add_strings obj S
  ∧ add_strings obj (add_strings obj' S) = add_strings obj' (add_strings obj S).
Proof.
  split_and!; apply set_eq; intros c;
    rewrite ?elem_of_union, !elem_of_add_strings, ?elem_of_union,
      ?elem_of_add_strings, ?elem_of_empty;
    tauto.
Qed.

(** A loop of the collector only prints. *)
Lemma for_each_load_say files : ∀ S w,
  ∃ lines,
    (for_each files (λ '(label, dir, lang), load_locale label dir lang) S w).2
    = say w lines.
Proof.
  induction files as [|[[label dir] lang] files IH]; intros S w; simpl.
  - exists []. unfold say. destruct w; simpl. by rewrite app_nil_r.
  - unfold bind. rewrite load_locale_eq.
    set (line := locale_notice w (label, dir, lang)).
    assert (Hnext : ∀ S1, ∃ lines,
      (for_each files (λ '(label, dir, lang), load_locale label dir lang) S1
         (say w [line])).2 = say w lines).
    { intros S1. destruct (IH S1 (say w [line])) as [lines ->].
      exists (line :: lines). unfold say; simpl. by rewrite <- app_assoc. }
    destruct (fs w !! locale_path dir lang) as [data|]; [|apply Hnext].
    destruct (json_load data) as [obj|]; [apply Hnext|].
    exists []. unfold say. destruct w; simpl. by rewrite app_nil_r.
Qed.

Lemma collect_all_characters_say (w : world) :
  ∃ lines, (collect_all_characters w).2 = say w lines.
Proof. rewrite collect_all_characters_over. apply for_each_load_say. Qed.

(** X3. The collector only reads and prints: whether it returns or
    raises, the files and the network are as before, and the output has
    grown. *)
Theorem collect_all_characters_read_only (w : world) :
  fs (collect_all_characters w).2 = fs w
  ∧ net (collect_all_characters w).2 = net w
  ∧ ∃ lines, stdout (collect_all_characters w).2 = stdout w ++ lines.
Proof.
  destruct (collect_all_characters_say w) as [lines ->].
  split; [done|]. split; [done|]. by exists lines.
Qed.

(** X4. A locale file that exists and does not decode is not skipped:
    the collector raises the error of [json.load], and so does [main],
    with the status 1 and no file written. *)
Theorem collect_raises_on_undecodable_file (w : world) :
  all_decode w locale_files = false →
  (∃ w', collect_all_characters w = (Raise (Exception "ValueError"), w'))
  ∧ (main w).1 = Raise (Exception "ValueError")
  ∧ exit_status (main w).1 = 1
  ∧ fs (main w).2 = fs w.
Proof.
  intros Hdec.
  assert (Hraise : ∀ v, fs v = fs w →
    ∃ v', collect_all_characters v = (Raise (Exception "ValueError"), v')
          ∧ fs v' = fs w).
  { intros v Hv. pose proof (collect_all_characters_fs v) as Hfs.
    destruct (collect_all_characters v) as [[cps|e] v'] eqn:Hc.
    - apply collect_all_characters_inv in Hc as (Hall & _).
      assert (all_decode v locale_files = all_decode w locale_files) as Heq.
      { unfold all_decode, locale_file_decodes. by rewrite Hv. }
      congruence.
    - rewrite (collect_all_characters_raises _ _ _ Hc). exists v'.
      split; [reflexivity|]. simpl in Hfs. congruence. }
  split.
  - destruct (Hraise w eq_refl) as (w' & Hc & _). by exists w'.
  - assert (∃ w', main w = (Raise (Exception "ValueError"), w') ∧ fs w' = fs w)
      as (w' & -> & Hfs); [|by split_and!].
    unfold main, main_sc. unfold bind at 1 2 3. unfold print at 1.
    set (w0 := World _ _ _).
    destruct (Hraise w0 eq_refl) as (w' & -> & Hfs). by exists w'.
Qed.

(** A set that holds the whole ASCII range counts 95 in it. *)
Lemma ascii_count_full (X : gset Z) :
  (∀ c, 0x20 ≤ c ≤ 0x7E → c ∈ X) → ascii_count X = 95.
Proof.
  intros Hall. unfold ascii_count, count_in.
  assert (filter (λ c, 0x20 ≤ c ≤ 0x7E) (elements X) ≡ₚ seqZ 0x20 95) as ->.
  { apply NoDup_Permutation.
    - apply NoDup_filter, NoDup_elements.
    - apply NoDup_seqZ.
    - intros c. rewrite list_elem_of_filter, elem_of_elements, elem_of_seqZ.
      split; [lia|]. intros Hc. split; [lia|]. apply Hall. lia. }
  by rewrite length_seqZ.
Qed.

(** X5. Of a set the collector returns, the report counts 95 ASCII code
    points, whatever the locale files hold; the set has at least 95
    elements. *)
Theorem collected_ascii_count (w w' : world) (cps : gset Z) :
  collect_all_characters w = (Ok cps, w') →
  ascii_count cps = 95 ∧ 95 ≤ len cps
  ∧ stats_lines cps !! 1%nat = Some "  ASCII: 95".
Proof.
  intros Hrun.
  assert (Hascii : ascii_count cps = 95).
  { apply ascii_count_full. intros c Hc.
    apply collect_all_characters_inv in Hrun as (_ & _ & Hcps).
    apply Hcps. left. by apply elem_of_basic_ascii. }
  split; [done|]. split.
  - rewrite <- Hascii. unfold ascii_count, count_in, len.
    apply inj_le. unfold size, set_size; simpl. apply length_filter.
  - simpl. by rewrite Hascii.
Qed.
End Collector_properties.

(* ====================================================================== *)
(** ** What the actions write *)

Section Effects.
Context {env : Environment}.

Lemma extends_refl paths w : extends paths w w.
Proof.
  split; [done|]. split; [exists []; by rewrite app_nil_r|]. by split.
Qed.

Lemma extends_trans paths w1 w2 w3 :
  extends paths w1 w2 → extends paths w2 w3 → extends paths w1 w3.
Proof.
  intros (Hn1 & [l1 Ho1] & Hf1 & Hs1) (Hn2 & [l2 Ho2] & Hf2 & Hs2).
  split; [congruence|]. split; [|split].
  - exists (l1 ++ l2). by rewrite Ho2, Ho1, app_assoc.
  - intros p Hp. by rewrite Hf2, Hf1.
  - intros p Hp. by apply Hs2, Hs1.
Qed.

Lemma extends_mono paths paths' w w' :
  paths ⊆ paths' → extends paths w w' → extends paths' w w'.
Proof.
  intros Hsub (Hn & Ho & Hf & Hs). split; [done|]. split; [done|].
  split; [|done]. intros p Hp. apply Hf. intros Hin. by apply Hp, Hsub.
Qed.

Lemma extends_say paths w lines : extends paths w (say w lines).
Proof. split; [done|]. split; [by exists lines|]. by split. Qed.

Lemma extends_write paths w p data :
  p ∈ paths →
  extends paths w (World (<[p := data]> (fs w)) (stdout w) (net w)).
Proof.
  intros Hp. split; [done|]. split; [exists []; simpl; by rewrite app_nil_r|].
  simpl. split.
  - intros q Hq. apply lookup_insert_ne. by intros ->.
  - intros q Hq. destruct (decide (p = q)) as [->|Hne].
    + rewrite lookup_insert_eq. by eexists.
    + by rewrite lookup_insert_ne.
Qed.

Lemma keeps_mono {A} paths paths' (m : action A) :
  paths ⊆ paths' → keeps paths m → keeps paths' m.
Proof. intros Hsub Hm w. eapply extends_mono; [done|apply Hm]. Qed.

Lemma keeps_bind {A B} paths (m : action A) (k : A → action B) :
  keeps paths m → (∀ a, keeps paths (k a)) → keeps paths (bind m k).
Proof.
  intros Hm Hk w. unfold bind. specialize (Hm w).
  destruct (m w) as [[a|e] w1]; simpl in *; [|done].
  eapply extends_trans; [exact Hm|apply Hk].
Qed.

Lemma keeps_ret {A} paths (a : A) : keeps paths (ret a).
Proof. intros w. apply extends_refl. Qed.

Lemma keeps_raise {A} paths e : keeps paths (raise (A := A) e).
Proof. intros w. apply extends_refl. Qed.

Lemma keeps_print paths line : keeps paths (print line).
Proof. intros w. apply (extends_say paths w [line]). Qed.

Lemma keeps_path_exists paths p : keeps paths (path_exists p).
Proof. intros w. apply extends_refl. Qed.

Lemma keeps_read_file paths p : keeps paths (read_file p).
Proof.
  intros w. unfold read_file. destruct (fs w !! p); apply extends_refl.
Qed.

Lemma keeps_getsize paths p : keeps paths (getsize p).
Proof.
  intros w. unfold getsize. destruct (fs w !! p); apply extends_refl.
Qed.

Lemma keeps_call {A} paths name (o : option A) : keeps paths (call name o).
Proof. intros w. destruct o; apply extends_refl. Qed.

Lemma keeps_write_file paths p data : p ∈ paths → keeps paths (write_file p data).
Proof. intros Hp w. by apply extends_write. Qed.

Lemma keeps_urlretrieve paths url p : p ∈ paths → keeps paths (urlretrieve url p).
Proof.
  intros Hp w. unfold urlretrieve.
  destruct (net w !! url); [by apply extends_write|apply extends_refl].
Qed.

Lemma keeps_for_each {A S} paths (l : list A) (body : A → S → action S) s :
  (∀ x s', keeps paths (body x s')) → keeps paths (for_each l body s).
Proof.
  intros Hbody. revert s. induction l as [|x l IH]; intros s; simpl.
  - apply keeps_ret.
  - apply keeps_bind; [apply Hbody|apply IH].
Qed.

Lemma keeps_first_existing paths l : keeps paths (first_existing l).
Proof.
  induction l as [|p l IH]; simpl; [apply keeps_ret|].
  apply keeps_bind; [apply keeps_path_exists|].
  intros [|]; [apply keeps_ret|apply IH].
Qed.

(** One step of a proof that an action keeps to its paths. *)
Ltac keeps_step :=
  first
    [ apply keeps_ret | apply keeps_raise | apply keeps_print
    | apply keeps_path_exists | apply keeps_read_file | apply keeps_getsize
    | apply keeps_call | apply keeps_first_existing
    | apply keeps_write_file | apply keeps_urlretrieve
    | apply keeps_bind; [|intros ?]
    | match goal with
      | |- keeps _ (if ?b then _ else _) => destruct b
      | |- keeps _ (match ?x with (_, _) => _ end) => destruct x
      | |- keeps _ (let _ := _ in _) => cbv zeta
      end ].

Lemma keeps_load_locale paths label dir lang S :
  keeps paths (load_locale label dir lang S).
Proof. unfold load_locale. repeat keeps_step. Qed.

Lemma keeps_collect paths : keeps paths collect_all_characters.
Proof.
  unfold collect_all_characters. cbv zeta.
  apply keeps_bind; [apply keeps_for_each; intros; apply keeps_load_locale|].
  intros S. apply keeps_bind; [|intros; apply keeps_ret].
  apply keeps_for_each; intros; apply keeps_load_locale.
Qed.

Lemma keeps_print_stats paths cps : keeps paths (print_stats cps).
Proof. unfold print_stats. repeat keeps_step. Qed.

Lemma keeps_subset_font paths input_path output_path cps fix_names :
  output_path ∈ paths →
  keeps paths (subset_font input_path output_path cps fix_names).
Proof. intros Hp. unfold subset_font. repeat keeps_step. done. Qed.

Lemma keeps_main_sc paths : SC_OUTPUT ∈ paths → keeps paths main_sc.
Proof.
  intros Hp. unfold main_sc.
  repeat first [apply keeps_collect | apply keeps_print_stats
               | by apply keeps_subset_font | keeps_step].
Qed.

Lemma keeps_find_kr_input paths :
  kr_download_path ∈ paths → keeps paths find_kr_input.
Proof.
  intros Hp. unfold find_kr_input. repeat keeps_step. exact Hp.
Qed.

Lemma keeps_main_kr paths cps sc_size kr_input :
  KR_OUTPUT ∈ paths → keeps paths (main_kr cps sc_size kr_input).
Proof.
  intros Hp. unfold main_kr.
  repeat first [by apply keeps_subset_font | keeps_step].
Qed.

(** X6. [subset_font] prints nothing and reaches no network; it writes
    to the output path only, whether it returns or raises: every other
    path holds what it held. *)
Theorem subset_font_frame (input_path output_path : string)
    (codepoints : gset Z) (fix_names : option (gmap Z string)) (w : world) :
  let w' := (subset_font input_path output_path codepoints fix_names w).2 in
  stdout w' = stdout w
  ∧ net w' = net w
  ∧ (∀ p, p ≠ output_path → fs w' !! p = fs w !! p)
  ∧ (∀ p, is_Some (fs w !! p) → is_Some (fs w' !! p)).
Proof.
  intros w'.
  destruct (keeps_subset_font [output_path] input_path output_path codepoints
              fix_names (list_elem_of_here _ _) w) as (Hnet & _ & Hfs & Hsome).
  split_and!; try done.
  - subst w'. unfold subset_font, bind, read_file, call, write_file, getsize,
      ret, raise.
    repeat match goal with
           | |- context [match ?o with Some _ => _ | None => _ end] =>
               destruct o; simpl
           end; done.
  - intros p Hp. apply Hfs. by intros ->%list_elem_of_singleton.
Qed.

Lemma keeps_main : keeps [SC_OUTPUT; kr_download_path; KR_OUTPUT] main.
Proof.
  unfold main. apply keeps_bind; [apply keeps_main_sc; left|].
  intros [cps sc_size]. apply keeps_bind.
  - apply keeps_find_kr_input. right; left.
  - intros kr_input. apply keeps_main_kr. right; right; left.
Qed.
End Effects.

(* ====================================================================== *)
(** ** The paths of the script are distinct *)

Section Paths.
Context {env : Environment}.

Lemma list_ascii_of_append (a b : string) :
  String.list_ascii_of_string (a +:+ b)
  = String.list_ascii_of_string a ++ String.list_ascii_of_string b.
Proof. induction a as [|c a IH]; simpl; [done|by rewrite IH]. Qed.

Lemma append_inj (a x y : string) : a +:+ x = a +:+ y → x = y.
Proof. induction a as [|c a IH]; simpl; [done|]. intros [= H]. by apply IH. Qed.

(** Joining keeps the last character of the second part. *)
Lemma last_path_join (a b : string) (z : Ascii.ascii) :
  last (String.list_ascii_of_string b) = Some z →
  last (String.list_ascii_of_string (path_join a b)) = Some z.
Proof.
  intros Hz. unfold path_join.
  destruct (String.list_ascii_of_string b) as [|c l] eqn:Hb; [done|].
  destruct (last (String.list_ascii_of_string a)) as [y|];
    [|by rewrite Hb].
  destruct (is_sep c); [by rewrite Hb|].
  destruct (is_sep y); rewrite !list_ascii_of_append, Hb, last_app, ?last_app;
    by rewrite Hz.
Qed.

(** Joining one directory with two names that do not start with a
    separator gives two paths. *)
Lemma path_join_inj (a : string) (c d : Ascii.ascii) (x y : string) :
  is_sep c = false → is_sep d = false →
  path_join a (String c x) = path_join a (String d y) →
  String c x = String d y.
Proof.
  intros Hc Hd. unfold path_join; simpl. rewrite Hc, Hd.
  destruct (last (String.list_ascii_of_string a)) as [z|]; [|done].
  destruct (is_sep z); intros H; apply append_inj in H; [done|].
  by apply (append_inj "/") in H.
Qed.

Lemma locale_path_last (dir lang : string) :
  last (String.list_ascii_of_string (locale_path dir lang)) = Some "n"%char.
Proof.
  apply last_path_join. rewrite list_ascii_of_append, last_app. done.
Qed.

Lemma font_path_last (name : string) :
  last (String.list_ascii_of_string name) = Some "f"%char →
  ∀ dir lang, path_join FONTS_DIR name ≠ locale_path dir lang.
Proof.
  intros Hname dir lang Heq.
  pose proof (last_path_join FONTS_DIR name _ Hname) as Hl.
  rewrite Heq, locale_path_last in Hl. done.
Qed.

Lemma font_paths_distinct :
  SC_OUTPUT ≠ SC_INPUT ∧ KR_OUTPUT ≠ SC_INPUT ∧ kr_download_path ≠ SC_INPUT
  ∧ SC_OUTPUT ≠ KR_OUTPUT ∧ SC_OUTPUT ≠ kr_download_path
  ∧ KR_OUTPUT ≠ kr_download_path
  ∧ (SC_OUTPUT ∉ kr_candidates) ∧ (KR_OUTPUT ∉ kr_candidates).
Proof.
  unfold SC_OUTPUT, SC_INPUT, KR_OUTPUT, kr_download_path, kr_candidates.
  rewrite !not_elem_of_cons.
  split_and!; try apply not_elem_of_nil;
    intros H; apply path_join_inj in H; done.
Qed.
End Paths.

(* ====================================================================== *)
(** ** Further properties of the subsetter *)

Section Subsetter_properties.
Context {env : Environment}.



(** X8. The empty mapping of overrides is no mapping: the call is the one
    without overrides. With a non-empty mapping a font without a name
    table makes the call raise [KeyError] before anything is written,
    where the call without overrides goes on. *)
Theorem subset_font_empty_overrides (input_path output_path : string)
    (codepoints : gset Z) (w : world) :
  subset_font input_path output_path codepoints (Some ∅) w
  = subset_font input_path output_path codepoints None w
  ∧ ∀ names data font subsetted,
      names ≠ ∅ →
      fs w !! input_path = Some data →
      TTFont_open data = Some font →
      Subsetter_subset subset_options codepoints font = Some subsetted →
      name_table subsetted = None →
      subset_font input_path output_path codepoints (Some names) w
      = (Raise (Exception "KeyError"), w).
Proof.
  split; [done|].
  intros names data font subsetted Hne H1 H2 H3 H4.
  unfold subset_font, bind, read_file, call, raise, ret.
  rewrite H1, H2, H3. unfold fix_name_records.
  by rewrite bool_decide_eq_false_2, H4.
Qed.

(** X9. Fixing the name records is idempotent, and keeps their number,
    their order and their IDs. *)
Theorem fix_record_idempotent (names : gmap Z string)
    (records : list NameRecord) :
  fix_record names <$> (fix_record names <$> records)
  = fix_record names <$> records
  ∧ length (fix_record names <$> records) = length records
  ∧ nameID <$> (fix_record names <$> records) = nameID <$> records.
Proof.
  split_and!.
  - rewrite <- list_fmap_compose. apply list_fmap_ext. intros _ r _. simpl.
    unfold fix_record at 2.
    destruct (names !! nameID r) as [s|] eqn:E; [|done].
    unfold fix_record; simpl. by rewrite E.
  - apply length_fmap.
  - rewrite <- list_fmap_compose. apply list_fmap_ext. intros _ r _. simpl.
    unfold fix_record. by destruct (names !! nameID r).
Qed.
End Subsetter_properties.

(* ====================================================================== *)
(** ** Further properties of [main] *)

Section Main_properties.
Context {env : Environment}.

Lemma print_stats_lines codepoints w :
  print_stats codepoints w = (Ok tt, say w (stats_lines codepoints)).
Proof.
  unfold print_stats, bind, print, say, stats_lines; simpl.
  by rewrite <- !app_assoc.
Qed.

(** The first stage, by cases. *)
Lemma main_sc_eq (w : world) :
  main_sc w =
    match collect_all_characters
            (say w ["Collecting characters from all locale files..."]) with
    | (Raise e, w1) => (Raise e, w1)
    | (Ok cps, w1) =>
        let w2 := say w1 (stats_lines cps) in
        match fs w2 !! SC_INPUT with
        | None =>
            (Raise (SystemExit 1),
             say w2 [nl +:+ "Error: " +:+ SC_INPUT +:+ " not found.";
                     "Download Noto Sans SC Regular from: https://fonts.google.com/noto/specimen/Noto+Sans+SC"])
        | Some data =>
            match subset_font SC_INPUT SC_OUTPUT cps None
                    (say w2 [nl +:+ "--- Noto Sans SC ---";
                             "Input: " +:+ fmt_kib (Z.of_nat (length data))
                             +:+ " KiB"]) with
            | (Ok (sc_size, sc_glyphs), w4) =>
                (Ok (cps, sc_size),
                 say w4 ["Output: " +:+ fmt_kib sc_size +:+ " KiB ("
                         +:+ pretty sc_glyphs +:+ " glyphs)"])
            | (Raise e, w4) => (Raise e, w4)
            end
        end
    end.
Proof.
  unfold main_sc, bind, print, path_exists, getsize, ret, raise.
  destruct (collect_all_characters _) as [[cps|e] w1]; [|done].
  rewrite print_stats_lines. unfold say. cbn [fs stdout net].
  destruct (fs w1 !! SC_INPUT) as [data|] eqn:E.
  - rewrite bool_decide_eq_true_2 by eauto. cbn [negb fs stdout net].
    rewrite E. cbn [fs stdout net].
    rewrite <- (app_assoc _ [nl +:+ "--- Noto Sans SC ---"]).
    cbn [app].
    destruct (subset_font _ _ _ _ _) as [[[sc_size sc_glyphs]|e] w4]; done.
  - rewrite bool_decide_eq_false_2 by (by intros [? ?]). cbn [negb fs stdout net].
    by rewrite <- app_assoc.
Qed.

Lemma kr_candidate_nonempty (p : string) : p ∈ kr_candidates → p ≠ "".
Proof.
  unfold kr_candidates. rewrite !elem_of_cons, elem_of_nil.
  intros [->|[->|[->|[]]]]; apply path_join_nonempty.
Qed.

(** The lookup of the Korean input, by cases. *)
Lemma find_kr_input_cases (w : world) :
  (∃ p, p ∈ kr_candidates ∧ is_Some (fs w !! p)
        ∧ find_kr_input w = (Ok p, w))
  ∨ ((∀ p, p ∈ kr_candidates → fs w !! p = None)
     ∧ find_kr_input w =
         match net w !! NOTO_KR_URL with
         | Some data =>
             (Ok kr_download_path,
              World (<[kr_download_path := data]> (fs w))
                (stdout w
                 ++ [nl +:+ "Noto Sans KR source not found. Downloading...";
                     "Downloaded: " +:+ fmt_kib (Z.of_nat (length data))
                     +:+ " KiB"])
                (net w))
         | None =>
             (Raise (Exception "URLError"),
              say w [nl +:+ "Noto Sans KR source not found. Downloading..."])
         end).
Proof.
  unfold find_kr_input, bind. rewrite first_existing_eq.
  destruct (head (filter (λ p, is_Some (fs w !! p)) kr_candidates))
    as [p|] eqn:Hhead.
  - left. exists p. apply head_Some_elem_of, list_elem_of_filter in Hhead
      as [Hp Hin].
    split; [done|]. split; [done|]. simpl.
    by rewrite bool_decide_eq_false_2 by by apply kr_candidate_nonempty.
  - right. split.
    + intros p Hp. apply head_None in Hhead.
      destruct (fs w !! p) as [data|] eqn:E; [|done].
      assert (p ∈ filter (λ p, is_Some (fs w !! p)) kr_candidates) as Hin.
      { apply list_elem_of_filter. split; [by rewrite E|done]. }
      rewrite Hhead in Hin. by apply elem_of_nil in Hin.
    + simpl. unfold urlretrieve, getsize, print, write_file, ret, say.
      fold kr_download_path. cbn [fs stdout net].
      destruct (net w !! NOTO_KR_URL) as [data|]; [|done].
      cbn [fs stdout net]. rewrite lookup_insert_eq. cbn [fs stdout net].
      by rewrite <- app_assoc.
Qed.


(** The last stage, by cases. *)
Lemma main_kr_eq (codepoints : gset Z) (sc_size : Z) (kr_input : string)
    (w : world) :
  main_kr codepoints sc_size kr_input w =
    match fs w !! kr_input with
    | None =>
        (Raise (Exception "FileNotFoundError"),
         say w [nl +:+ "--- Noto Sans KR ---"])
    | Some data =>
        match subset_font kr_input KR_OUTPUT codepoints (Some kr_fix_names)
                (say w [nl +:+ "--- Noto Sans KR ---";
                        "Input: " +:+ fmt_kib (Z.of_nat (length data))
                        +:+ " KiB"]) with
        | (Ok (kr_size, kr_glyphs), w2) =>
            (Ok tt,
             say w2 ["Output: " +:+ fmt_kib kr_size +:+ " KiB ("
                     +:+ pretty kr_glyphs +:+ " glyphs)";
                     nl +:+ "Total CJK font overhead: "
                     +:+ fmt_kib (sc_size + kr_size) +:+ " KiB";
                     "Done! Commit the updated subset files to the repository."])
        | (Raise e, w2) => (Raise e, w2)
        end
    end.
Proof.
  unfold main_kr, bind, print, getsize, ret, raise, say. cbn [fs stdout net].
  destruct (fs w !! kr_input) as [data|]; [|done]. cbn [fs stdout net].
  rewrite <- (app_assoc _ [nl +:+ "--- Noto Sans KR ---"]). cbn [app].
  destruct (subset_font _ _ _ _ _) as [[[kr_size kr_glyphs]|e] w2]; [|done].
  cbn [fs stdout net]. by rewrite <- !app_assoc.
Qed.

(** What a successful first stage has done. *)
Lemma main_sc_ok (w w1 : world) (cps : gset Z) (sc_size : Z) :
  main_sc w = (Ok (cps, sc_size), w1) →
  all_decode w locale_files = true
  ∧ is_Some (fs w !! SC_INPUT)
  ∧ ∃ saved, fs w1 !! SC_OUTPUT = Some saved
             ∧ sc_size = Z.of_nat (length saved).
Proof.
  rewrite main_sc_eq.
  set (w0 := say w _).
  pose proof (collect_all_characters_fs w0) as Hfs.
  destruct (collect_all_characters w0) as [[cps'|e] wa] eqn:Hc; [|done].
  apply collect_all_characters_inv in Hc as (Hdec & _). simpl in Hfs.
  cbv zeta. cbn [say fs]. rewrite Hfs. subst w0. cbn [say fs].
  destruct (fs w !! SC_INPUT) as [data|]; [|done].
  destruct (subset_font _ _ _ _ _) as [[[sz n]|e] w4] eqn:Hsub; [|done].
  intros [= <- <- <-].
  apply subset_font_ok in Hsub
    as (data' & font & subsetted & fixed & saved & cmap
        & _ & _ & _ & _ & _ & _ & -> & _ & ->).
  split; [done|]. split; [by eexists|]. exists saved. cbn [say fs].
  by rewrite lookup_insert_eq.
Qed.

(** X10. When [main] returns, every locale file that exists has decoded,
    the Simplified-Chinese input was there, both subsets exist, and the
    last line printed is the closing one. *)
Theorem main_returns (w w' : world) :
  main w = (Ok tt, w') →
  all_decode w locale_files = true
  ∧ is_Some (fs w !! SC_INPUT)
  ∧ is_Some (fs w' !! SC_OUTPUT)
  ∧ is_Some (fs w' !! KR_OUTPUT)
  ∧ last (stdout w')
    = Some "Done! Commit the updated subset files to the repository.".
Proof.
  unfold main. intros Hmain.
  apply bind_inv in Hmain as ([cps sc_size] & w1 & Hsc & Hrest).
  apply bind_inv in Hrest as (kr_input & w2 & Hfind & Hkr).
  apply main_sc_ok in Hsc as (Hdec & Hin & saved & Hout & _).
  split; [done|]. split; [done|].
  pose proof (keeps_find_kr_input [kr_download_path] (list_elem_of_here _ _) w1)
    as (_ & _ & _ & Hsome1).
  rewrite Hfind in Hsome1. simpl in Hsome1.
  pose proof (keeps_main_kr [KR_OUTPUT] cps sc_size kr_input
                (list_elem_of_here _ _) w2) as (_ & _ & _ & Hsome2).
  rewrite Hkr in Hsome2. simpl in Hsome2.
  split; [apply Hsome2, Hsome1; by rewrite Hout|].
  rewrite main_kr_eq in Hkr.
  destruct (fs w2 !! kr_input) as [data|]; [|done].
  destruct (subset_font _ _ _ _ _) as [[[kr_size kr_glyphs]|e] w3] eqn:Hsub;
    [|done].
  injection Hkr as <-.
  apply subset_font_ok in Hsub
    as (data' & font & subsetted & fixed & saved' & cmap
        & _ & _ & _ & _ & _ & _ & _ & _ & ->).
  split.
  - cbn [say fs]. rewrite lookup_insert_eq. by eexists.
  - cbn [say stdout]. by rewrite last_app.
Qed.

(** X11. [main] writes to three paths only: the two subsets and the file
    the Korean font is downloaded to. Whether it returns or raises, every
    other file holds what it held, no file has gone, the output has grown
    and the network is as it was. *)
Theorem main_frame (w : world) :
  let w' := (main w).2 in
  net w' = net w
  ∧ (∃ lines, stdout w' = stdout w ++ lines)
  ∧ (∀ p, p ≠ SC_OUTPUT → p ≠ kr_download_path → p ≠ KR_OUTPUT →
          fs w' !! p = fs w !! p)
  ∧ (∀ p, is_Some (fs w !! p) → is_Some (fs w' !! p)).
Proof.
  intros w'. destruct (keeps_main w) as (Hnet & Hout & Hfs & Hsome).
  split; [done|]. split; [done|]. split; [|done].
  intros p H1 H2 H3. apply Hfs. rewrite !not_elem_of_cons.
  split_and!; [done..|apply not_elem_of_nil].
Qed.

(** X12. [main] leaves its inputs alone: whether it returns or raises,
    the Simplified-Chinese input, every locale file, and the second and
    third candidate for the Korean input hold what they held. *)
Theorem main_keeps_inputs (w : world) :
  fs (main w).2 !! SC_INPUT = fs w !! SC_INPUT
  ∧ (∀ dir lang,
       fs (main w).2 !! locale_path dir lang = fs w !! locale_path dir lang)
  ∧ fs (main w).2 !! path_join FONTS_DIR "NotoSansKR[wght].ttf"
    = fs w !! path_join FONTS_DIR "NotoSansKR[wght].ttf"
  ∧ fs (main w).2 !! path_join FONTS_DIR "NotoSansKR-Regular.ttf"
    = fs w !! path_join FONTS_DIR "NotoSansKR-Regular.ttf".
Proof.
  destruct (keeps_main w) as (_ & _ & Hfs & _).
  destruct font_paths_distinct as (H1 & H2 & H3 & _).
  split_and!; [|intros dir lang|..]; apply Hfs;
    rewrite !not_elem_of_cons; (split_and!; [..|apply not_elem_of_nil]);
    try (intros H; symmetry in H; revert H; by apply font_path_last);
    try (unfold SC_OUTPUT, kr_download_path, KR_OUTPUT;
         intros H; by apply path_join_inj in H).
  all: by apply not_eq_sym.
Qed.

(** X13. Nothing is rolled back: once the first stage has returned, the
    Simplified-Chinese subset it has written is there at the end, with the
    same contents, whatever becomes of the Korean font. *)
Theorem main_keeps_sc_output (w w1 : world) (cps : gset Z) (sc_size : Z) :
  main_sc w = (Ok (cps, sc_size), w1) →
  is_Some (fs w1 !! SC_OUTPUT)
  ∧ fs (main w).2 !! SC_OUTPUT = fs w1 !! SC_OUTPUT.
Proof.
  intros Hsc. split.
  - apply main_sc_ok in Hsc as (_ & _ & saved & -> & _). by eexists.
  - assert (keeps [kr_download_path; KR_OUTPUT]
              (do kr_input <- find_kr_input; main_kr cps sc_size kr_input))
      as Hkeeps.
    { apply keeps_bind; [apply keeps_find_kr_input; left|].
      intros kr_input. apply keeps_main_kr. right; left. }
    destruct (Hkeeps w1) as (_ & _ & Hfs & _).
    unfold main. unfold bind at 1. rewrite Hsc. apply Hfs.
    destruct font_paths_distinct as (_ & _ & _ & H4 & H5 & _).
    rewrite !not_elem_of_cons. split_and!; [done..|apply not_elem_of_nil].
Qed.


(** X15. The Korean input the lookup returns is one of the three
    candidates and exists when it returns; the world is untouched unless
    the font was downloaded, to the first candidate. *)
Theorem find_kr_input_returns (w w' : world) (p : string) :
  find_kr_input w = (Ok p, w') →
  p ∈ kr_candidates
  ∧ is_Some (fs w' !! p)
  ∧ (w' = w
     ∨ p = kr_download_path ∧ kr_candidates !! 0%nat = Some p
       ∧ fs w' !! p = net w !! NOTO_KR_URL).
Proof.
  destruct (find_kr_input_cases w) as [(q & Hq & Hsome & ->)|[_ ->]].
  - intros [= <- <-]. split; [done|]. split; [done|]. by left.
  - destruct (net w !! NOTO_KR_URL) as [data|]; [|done].
    intros [= <- <-]. cbn [fs]. rewrite lookup_insert_eq.
    split; [left|]. split; [by eexists|]. by right.
Qed.

End Main_properties.

(* ====================================================================== *)
(** ** The further properties at work in the small environment *)

Section Demo_properties.
Local Existing Instance demo_env.

(** Core ko.json of [demo_world_broken] is empty. *)
Lemma collect_raises_on_undecodable_file_witness :
  (main demo_world_broken).1 = Raise (Exception "ValueError")
  ∧ fs (main demo_world_broken).2 = fs demo_world_broken.
Proof.
  destruct (collect_raises_on_undecodable_file demo_world_broken)
    as (_ & Hmain & _ & Hfs).
  - vm_compute. reflexivity.
  - split; [exact Hmain|exact Hfs].
Defined.

Lemma collected_ascii_count_witness :
  ascii_count demo_codepoints = 95 ∧ 95 ≤ len demo_codepoints.
Proof.
  destruct (collected_ascii_count demo_world
              (say demo_world (locale_notice demo_world <$> locale_files))
              demo_codepoints) as (Hcount & Hlen & _).
  - vm_compute. reflexivity.
  - split; [exact Hcount|exact Hlen].
Defined.


(** A font without a name table: overrides raise, nothing is written. *)
Lemma subset_font_empty_overrides_witness :
  subset_font (env := bare_env)
    "/repo/apps/discord-worker/src/fonts/NotoSansKR[wght].ttf"
    "/out.ttf" demo_codepoints (Some kr_fix_names) demo_world
  = (Raise (Exception "KeyError"), demo_world).
Proof.
  apply (proj2 (subset_font_empty_overrides (env := bare_env)
                  "/repo/apps/discord-worker/src/fonts/NotoSansKR[wght].ttf"
                  "/out.ttf" demo_codepoints demo_world)
           kr_fix_names [Byte.x41; Byte.x42; Byte.xa0]
           {| name_table := None; best_cmap := None;
              other_tables := [Byte.x41; Byte.x42; Byte.xa0] |}
           {| name_table := None; best_cmap := None;
              other_tables := [Byte.x41; Byte.x42; Byte.xa0] |}).
  - intros H. apply (f_equal (λ m : gmap Z string, m !! 1)) in H.
    vm_compute in H. discriminate H.
  - vm_compute. reflexivity.
  - reflexivity.
  - vm_compute. reflexivity.
  - reflexivity.
Defined.

(** [demo_world_sc] has the Simplified-Chinese font and a network. *)
Lemma main_returns_witness :
  is_Some (fs (main demo_world_sc).2 !! SC_OUTPUT)
  ∧ is_Some (fs (main demo_world_sc).2 !! KR_OUTPUT).
Proof.
  destruct (main_returns demo_world_sc (main demo_world_sc).2)
    as (_ & _ & Hsc & Hkr & _).
  - vm_compute. reflexivity.
  - split; [exact Hsc|exact Hkr].
Defined.

(** Without the network the Korean stage fails, and the first subset
    stays. *)
Lemma main_keeps_sc_output_witness :
  (main demo_world_offline).1 = Raise (Exception "URLError")
  ∧ fs (main demo_world_offline).2 !! SC_OUTPUT
    = fs (main_sc demo_world_offline).2 !! SC_OUTPUT.
Proof.
  split; [vm_compute; reflexivity|].
  apply (main_keeps_sc_output demo_world_offline
           (main_sc demo_world_offline).2 demo_codepoints_sc 6).
  vm_compute. reflexivity.
Defined.



Lemma find_kr_input_returns_witness :
  "/repo/apps/discord-worker/src/fonts/NotoSansKR[wght].ttf" ∈ kr_candidates.
Proof.
  apply (find_kr_input_returns demo_world demo_world
           "/repo/apps/discord-worker/src/fonts/NotoSansKR[wght].ttf").
  vm_compute. reflexivity.
Defined.
End Demo_properties.
